(** * tradebot: candle store, ingestion feed, last-5 verifier and breakout strategy

    A shallow embedding of [core.py], [data.py], [strategies.py] and the
    ingestion / verification parts of [tradebot.py], followed by the
    properties established about them.

    Modelling conventions.
    - [datetime] is the number of microseconds since the Unix epoch (UTC),
      an integer; [datetime.timestamp()] followed by [int(...)] is the
      truncating division by 10^6.
    - [Decimal] is a coefficient and an exponent, as Python stores it; the
      arithmetic is exact (the 28-digit context rounding never triggers on
      coefficients below 10^28 and is not modelled). NaN and infinities do
      not occur: every Decimal comes from a finite literal of the vendor.
    - [float(x)] inside the verifier is taken at its exact decimal value.
    - A [deque(maxlen=capacity)] is a list whose head is the oldest element.
    - The UI, the log sink and the CSV files are collaborators; of these only
      the strategy journal and the corrections audit are kept, as lists of
      rows, because properties are stated on them. *)

From Stdlib Require Import ZArith List Bool Lia Ascii.
From stdpp Require Import base option list gmap strings fin_maps sorting.

Open Scope Z_scope.

(* ===================================================================== *)
(** ** Decimal *)
(* ===================================================================== *)

Module Dec.

(** [Decimal(coef * 10^dexp)]; e.g. [Decimal("1.060")] is [mk 1060 (-3)]. *)
Record t : Type := mk { coef : Z; dexp : Z }.

(** coefficient of [d] rescaled to the exponent [e <= dexp d] *)
Definition scaled (e : Z) (d : t) : Z := coef d * 10 ^ (dexp d - e).

Definition add (a b : t) : t :=
  let e := Z.min (dexp a) (dexp b) in mk (scaled e a + scaled e b) e.

Definition sub (a b : t) : t :=
  let e := Z.min (dexp a) (dexp b) in mk (scaled e a - scaled e b) e.

Definition mul (a b : t) : t := mk (coef a * coef b) (dexp a + dexp b).

Definition abs (a : t) : t := mk (Z.abs (coef a)) (dexp a).

(** numeric comparisons ([Decimal("1.0") == Decimal("1.00")] is true) *)
Definition cmp (a b : t) : comparison :=
  let e := Z.min (dexp a) (dexp b) in Z.compare (scaled e a) (scaled e b).

Definition ltb (a b : t) : bool := match cmp a b with Lt => true | _ => false end.
Definition leb (a b : t) : bool := match cmp a b with Gt => false | _ => true end.
Definition gtb (a b : t) : bool := ltb b a.
Definition geb (a b : t) : bool := leb b a.

Definition of_Z (n : Z) : t := mk n 0.

End Dec.

Abbreviation Decimal := Dec.t.

#[global] Instance Decimal_eq_dec : EqDecision Decimal.
Proof. solve_decision. Defined.

(* ===================================================================== *)
(** ** core.py *)
(* ===================================================================== *)

(** microseconds since the epoch *)
Definition datetime : Type := Z.

(** [int(dt.timestamp())] *)
Definition timestamp_int (dt : datetime) : Z := Z.quot dt 1000000.

Record Candle : Type := mkCandle {
  time : datetime;
  open : Decimal;
  high : Decimal;
  low : Decimal;
  close : Decimal;
  volume : Decimal;
  vwap : Decimal;
  trades : Z
}.

#[global] Instance Candle_eq_dec : EqDecision Candle.
Proof. solve_decision. Defined.

(** [deque(maxlen=capacity).append(x)]: push right, drop from the left what
    exceeds the capacity (with capacity 0 the deque stays empty). *)
Definition deque_append {A : Type} (capacity : nat) (d : list A) (x : A) : list A :=
  let d' := d ++ [x] in drop (length d' - capacity)%nat d'.

(** [CandleSeries]; the last field is [trades] in the source. *)
Record CandleSeries : Type := mkSeries {
  capacity : nat;
  times : list datetime;
  opens : list Decimal;
  highs : list Decimal;
  lows : list Decimal;
  closes : list Decimal;
  vols : list Decimal;
  vwaps : list Decimal;
  tradess : list Z
}.

(** [CandleSeries.__init__] *)
Definition CandleSeries_init (cap : nat) : CandleSeries :=
  mkSeries cap [] [] [] [] [] [] [] [].

(** [CandleSeries.append]: eight unconditional pushes. *)
Definition series_append (s : CandleSeries) (c : Candle) : CandleSeries :=
  let cap := capacity s in
  mkSeries cap
    (deque_append cap (times s) (time c))
    (deque_append cap (opens s) (open c))
    (deque_append cap (highs s) (high c))
    (deque_append cap (lows s) (low c))
    (deque_append cap (closes s) (close c))
    (deque_append cap (vols s) (volume c))
    (deque_append cap (vwaps s) (vwap c))
    (deque_append cap (tradess s) (trades c)).

(** [CandleSeries.last_time] *)
Definition series_last_time (s : CandleSeries) : option datetime := last (times s).

(** [CandleSeries.len] *)
Definition series_len (s : CandleSeries) : nat := length (times s).

(** [CandleStore]: the dict [series]. A missing key raises [KeyError],
    rendered as [None]. *)
Definition store_append (st : gmap string CandleSeries) (tf : string) (c : Candle)
  : option (gmap string CandleSeries) :=
  s ← st !! tf; Some (<[tf := series_append s c]> st).

Definition store_last_time (st : gmap string CandleSeries) (tf : string)
  : option (option datetime) :=
  s ← st !! tf; Some (series_last_time s).

(** [CandleStore.__init__]: one empty ring per configured interval. *)
Definition CandleStore_init (buffer : nat) (intervals : list (string * Z))
  : gmap string CandleSeries :=
  list_to_map (map (fun iv => (fst iv, CandleSeries_init buffer)) intervals).

(** the eight deques have one length *)
Definition series_wf (s : CandleSeries) : Prop :=
  let n := length (times s) in
  length (opens s) = n /\ length (highs s) = n /\ length (lows s) = n /\
  length (closes s) = n /\ length (vols s) = n /\ length (vwaps s) = n /\
  length (tradess s) = n.

(** the candle held at slot [i], read across the eight deques *)
Definition candle_at (s : CandleSeries) (i : nat) : option Candle :=
  t ← times s !! i; o ← opens s !! i; h ← highs s !! i; l ← lows s !! i;
  c ← closes s !! i; v ← vols s !! i; w ← vwaps s !! i; n ← tradess s !! i;
  Some (mkCandle t o h l c v w n).

(** strictly increasing by timestamp *)
Definition increasing (ts : list datetime) : Prop := StronglySorted Z.lt ts.

(* ===================================================================== *)
(** ** data.py *)
(* ===================================================================== *)

(** [KrakenClient.get_ohlc(pair, interval, since)] for the configured pair:
    the rows the vendor answers with, or [None] when the call raises
    (transport failure after retries, vendor error). *)
Definition Upstream : Type := Z -> option Z -> option (list Candle).

(** the filter "CLOSED, valid":
    [(c.time < now_min) and (c.trades > 0) and (c.volume > 0)] *)
Definition closed_valid (now_min : datetime) (c : Candle) : bool :=
  (time c <? now_min) && (0 <? trades c) && Dec.gtb (volume c) (Dec.of_Z 0).

(** [DataFeed]: the configured intervals in dict order, the store it
    writes to, and the watermark dict [_last_ts]. *)
Record DataFeed : Type := mkFeed {
  intervals : list (string * Z);
  store : gmap string CandleSeries;
  _last_ts : gmap string (option Z)
}.

(** [DataFeed.__init__] over a store *)
Definition DataFeed_init (ivs : list (string * Z)) (st : gmap string CandleSeries)
  : DataFeed :=
  mkFeed ivs st (list_to_map (map (fun iv => (fst iv, @None Z)) ivs)).

(** [self._last_ts.get(tf)] *)
Definition watermark (f : DataFeed) (tf : string) : option Z :=
  match _last_ts f !! tf with Some w => w | None => None end.

(** the test [(last_time is None) or (c.time > last_time)] *)
Definition accepts (last_time : option datetime) (c : Candle) : bool :=
  match last_time with
  | None => true
  | Some lt => lt <? time c
  end.

(** body of [for c in safe]: the ring and the local [last_time] *)
Definition accept_step (acc : CandleSeries * option datetime) (c : Candle)
  : CandleSeries * option datetime :=
  if accepts (snd acc) c then (series_append (fst acc) c, Some (time c)) else acc.

(** one iteration of [for tf, minutes in self.cfg.intervals.items()];
    [None] when the fetch raises or the store has no ring for [tf]. *)
Definition poll_tf (up : Upstream) (now_min : datetime) (f : DataFeed)
    (iv : string * Z) : option DataFeed :=
  let tf := fst iv in
  candles ← up (snd iv) (watermark f tf);
  let safe := List.filter (closed_valid now_min) candles in
  s ← store f !! tf;
  let r := foldl accept_step (s, series_last_time s) safe in
  let st' := <[tf := fst r]> (store f) in
  Some (match snd r with
        | Some t => mkFeed (intervals f) st' (<[tf := Some (timestamp_int t)]> (_last_ts f))
        | None => mkFeed (intervals f) st' (_last_ts f)
        end).

(** the loop of [poll_once]; the boolean tells whether it ran to the end
    ([false]: an exception left it after the state shown). *)
Fixpoint poll_intervals (up : Upstream) (now_min : datetime)
    (ivs : list (string * Z)) (f : DataFeed) : DataFeed * bool :=
  match ivs with
  | [] => (f, true)
  | iv :: rest =>
      match poll_tf up now_min f iv with
      | None => (f, false)
      | Some f' => poll_intervals up now_min rest f'
      end
  end.

(** [DataFeed.poll_once] *)
Definition poll_once (up : Upstream) (now_min : datetime) (f : DataFeed)
  : DataFeed * bool :=
  poll_intervals up now_min (intervals f) f.

(** a run of the poll loop: one upstream answer and one wall-clock minute
    per call *)
Definition poll_many (calls : list (Upstream * datetime)) (f : DataFeed) : DataFeed :=
  foldl (fun g call => fst (poll_once (fst call) (snd call) g)) f calls.

(** the records a call accepts out of [safe], in order *)
Fixpoint accepted (last_time : option datetime) (safe : list Candle) : list Candle :=
  match safe with
  | [] => []
  | c :: rest =>
      if accepts last_time c then c :: accepted (Some (time c)) rest
      else accepted last_time rest
  end.

(* ===================================================================== *)
(** ** tradebot.py: priming and backfill in [main] *)
(* ===================================================================== *)

(** [l[-n:]] for n > 0 *)
Definition last_n {A : Type} (n : nat) (l : list A) : list A :=
  drop (length l - n)%nat l.

(** [for c in cs: store.append(tf, c)] *)
Definition store_append_all (st : gmap string CandleSeries) (tf : string)
    (cs : list Candle) : option (gmap string CandleSeries) :=
  foldl (fun acc c => st' ← acc; store_append st' tf c) (Some st) cs.

(** [main] from the store creation to the watermark hand-over (the two
    fetches may answer differently). [None]: a fetch raised. *)
Definition main_startup (up1 up2 : Upstream) (ref_utc now_closed : datetime)
  : option DataFeed :=
  let ivs := [("1m"%string, 1)] in
  let st0 := CandleStore_init 1000 ivs in
  let feed := DataFeed_init ivs st0 in
  let eff_ref_utc := Z.min ref_utc now_closed in
  let since_ts := timestamp_int eff_ref_utc - 15 * 60 in
  r1 ← up1 1 (Some since_ts);
  let primed := last_n 10 (List.filter (fun c => time c <=? eff_ref_utc) r1) in
  st1 ← store_append_all st0 "1m" primed;
  let post_since := match last primed with Some c => time c | None => eff_ref_utc end in
  r2 ← up2 1 (Some (timestamp_int post_since));
  let post := List.filter (fun c => post_since <? time c) r2 in
  st2 ← store_append_all st1 "1m" post;
  last_time ← store_last_time st2 "1m";
  let w := match last_time with
           | Some t => timestamp_int t
           | None => timestamp_int eff_ref_utc
           end in
  Some (mkFeed (intervals feed) st2 (<["1m"%string := Some w]> (_last_ts feed))).

(* ===================================================================== *)
(** ** tradebot.py: [verify_last5_and_fix] *)
(* ===================================================================== *)

(** [float(x)] of a Decimal and of [dt.timestamp()], at their exact values *)
Definition float_of_decimal (x : Decimal) : Decimal := x.
Definition float_of_timestamp (t : datetime) : Decimal := Dec.mk t (-6).

(** [_neq(a, b)]: [abs(float(a) - float(b)) > 1e-9] *)
Definition _neq (a b : Decimal) : bool :=
  Dec.gtb (Dec.abs (Dec.sub a b)) (Dec.mk 1 (-9)).

(** Python's short-circuit [or] over tests that may raise [IndexError] *)
Definition or_else (x y : option bool) : option bool :=
  b ← x; if b : bool then Some true else y.

(** the test of the comparison loop for slot [idx] against fetched [a];
    [None] when a deque is shorter than [idx] requires *)
Definition slot_mismatch (s1 : CandleSeries) (idx : nat) (a : Candle) : option bool :=
  or_else (t ← times s1 !! idx;
           Some (_neq (float_of_timestamp t) (float_of_timestamp (time a))))
  (or_else (x ← opens s1 !! idx; Some (_neq (float_of_decimal x) (float_of_decimal (open a))))
  (or_else (x ← highs s1 !! idx; Some (_neq (float_of_decimal x) (float_of_decimal (high a))))
  (or_else (x ← lows s1 !! idx; Some (_neq (float_of_decimal x) (float_of_decimal (low a))))
  (or_else (x ← closes s1 !! idx; Some (_neq (float_of_decimal x) (float_of_decimal (close a))))
  (or_else (x ← vols s1 !! idx; Some (_neq (float_of_decimal x) (float_of_decimal (volume a))))
           (n ← tradess s1 !! idx; Some (negb (n =? trades a)))))))).

(** the list [mismatches] built by the comparison loop *)
Fixpoint find_mismatches (s1 : CandleSeries) (pairs : list (nat * Candle))
  : option (list (nat * Candle)) :=
  match pairs with
  | [] => Some []
  | (idx, a) :: rest =>
      b ← slot_mismatch s1 idx a;
      ms ← find_mismatches s1 rest;
      Some (if b : bool then (idx, a) :: ms else ms)
  end.

(** Writes into the ring: state passing with an exception flag. The state
    reached before an [IndexError] is kept. *)
Definition Patch (A : Type) : Type := CandleSeries -> CandleSeries * option A.

Definition patch_ret {A : Type} (a : A) : Patch A := fun s => (s, Some a).

Definition patch_bind {A B : Type} (m : Patch A) (k : A -> Patch B) : Patch B :=
  fun s => match m s with
           | (s', Some a) => k a s'
           | (s', None) => (s', None)
           end.

Notation "m >>> k" := (patch_bind m (fun _ => k))
  (at level 65, right associativity, only parsing).

(** [d[idx] = x] on a deque: [IndexError] out of range *)
Definition deque_set {A : Type} (d : list A) (idx : nat) (x : A) : option (list A) :=
  if decide (idx < length d)%nat then Some (<[idx := x]> d) else None.

Definition write (upd : CandleSeries -> option CandleSeries) : Patch unit :=
  fun s => match upd s with
           | Some s' => (s', Some tt)
           | None => (s, None)
           end.

Definition set_opens idx x : Patch unit := write (fun s => d ← deque_set (opens s) idx x;
  Some (mkSeries (capacity s) (times s) d (highs s) (lows s) (closes s) (vols s) (vwaps s) (tradess s))).
Definition set_highs idx x : Patch unit := write (fun s => d ← deque_set (highs s) idx x;
  Some (mkSeries (capacity s) (times s) (opens s) d (lows s) (closes s) (vols s) (vwaps s) (tradess s))).
Definition set_lows idx x : Patch unit := write (fun s => d ← deque_set (lows s) idx x;
  Some (mkSeries (capacity s) (times s) (opens s) (highs s) d (closes s) (vols s) (vwaps s) (tradess s))).
Definition set_closes idx x : Patch unit := write (fun s => d ← deque_set (closes s) idx x;
  Some (mkSeries (capacity s) (times s) (opens s) (highs s) (lows s) d (vols s) (vwaps s) (tradess s))).
Definition set_vols idx x : Patch unit := write (fun s => d ← deque_set (vols s) idx x;
  Some (mkSeries (capacity s) (times s) (opens s) (highs s) (lows s) (closes s) d (vwaps s) (tradess s))).
Definition set_vwaps idx x : Patch unit := write (fun s => d ← deque_set (vwaps s) idx x;
  Some (mkSeries (capacity s) (times s) (opens s) (highs s) (lows s) (closes s) (vols s) d (tradess s))).
Definition set_trades idx x : Patch unit := write (fun s => d ← deque_set (tradess s) idx x;
  Some (mkSeries (capacity s) (times s) (opens s) (highs s) (lows s) (closes s) (vols s) (vwaps s) d)).
Definition set_times idx x : Patch unit := write (fun s => d ← deque_set (times s) idx x;
  Some (mkSeries (capacity s) d (opens s) (highs s) (lows s) (closes s) (vols s) (vwaps s) (tradess s))).

(** the eight assignments of the patch loop, in source order *)
Definition patch_slot (idx : nat) (a : Candle) : Patch unit :=
  set_opens idx (open a) >>> set_highs idx (high a) >>> set_lows idx (low a) >>>
  set_closes idx (close a) >>> set_vols idx (volume a) >>> set_vwaps idx (vwap a) >>>
  set_trades idx (trades a) >>> set_times idx (time a).

(** [for idx, a in mismatches: ...] *)
Fixpoint patch_all (ms : list (nat * Candle)) : Patch unit :=
  match ms with
  | [] => patch_ret tt
  | (idx, a) :: rest => patch_slot idx a >>> patch_all rest
  end.

Inductive VerifyOutcome : Type :=
| VerifySkipped                                    (* fewer than 5 on a side *)
| VerifyOK                                         (* "verify last5: OK" *)
| VerifyFixed (corrections : list (nat * Candle))  (* "verify last5: fixed n" *)
| VerifyError.                                     (* "verify error: ..." *)

(** the last five fetched rows that are closed and valid *)
Definition verify_fetched (now_min : datetime) (rows : list Candle) : list Candle :=
  last_n 5 (List.filter (closed_valid now_min) rows).

(** [idxs] paired with [fetched] as the comparison loop walks them *)
Definition verify_pairs (s1 : CandleSeries) (fetched : list Candle) : list (nat * Candle) :=
  zip (seq (series_len s1 - 5)%nat 5) fetched.

(** [verify_last5_and_fix] on the "1m" ring. The corrections audit file
    receives one "CORRECTED" row per patched slot: the list carried by
    [VerifyFixed]. *)
Definition verify_last5_and_fix (up : Upstream) (now_min : datetime)
    (s1 : CandleSeries) : CandleSeries * VerifyOutcome :=
  let since := timestamp_int (now_min - 10 * 60 * 1000000) in
  match up 1 (Some since) with
  | None => (s1, VerifyError)
  | Some rows =>
      let fetched := verify_fetched now_min rows in
      if (series_len s1 <? 5)%nat || (length fetched <? 5)%nat then (s1, VerifySkipped)
      else
        match find_mismatches s1 (verify_pairs s1 fetched) with
        | None => (s1, VerifyError)
        | Some [] => (s1, VerifyOK)
        | Some ms =>
            match patch_all ms s1 with
            | (s1', Some _) => (s1', VerifyFixed ms)
            | (s1', None) => (s1', VerifyError)
            end
        end
  end.

(* ===================================================================== *)
(** ** strategies.py *)
(* ===================================================================== *)

(** [Position.side]: "long" | "short"; [Position.outcome]: "win" | "loss" *)
Inductive Side : Type := long | short.
Inductive Outcome : Type := win | loss.

Record Position : Type := mkPosition {
  side : Side;
  entry : Decimal;
  stop : Decimal;
  target : Decimal;
  capital : Decimal;
  opened_at : datetime;
  exit_price : option Decimal;
  closed_at : option datetime;
  outcome : option Outcome
}.

#[global] Instance Side_eq_dec : EqDecision Side.
Proof. solve_decision. Defined.
#[global] Instance Outcome_eq_dec : EqDecision Outcome.
Proof. solve_decision. Defined.
#[global] Instance Position_eq_dec : EqDecision Position.
Proof. solve_decision. Defined.

(** the rows of the journal file, oldest first *)
Inductive JournalRow : Type :=
| LogEntry (p : Position) (note : string)   (* [Journal.log_entry] *)
| LogExit (p : Position) (note : string).   (* [Journal.log_exit] *)

(** the constants under "REFERENCES" ([RISK_STEP] is [Decimal(RISK_STEP_STR)]) *)
Record Settings : Type := mkSettings {
  MAX_CONCURRENT_POS : Z;
  TRADE_CAPITAL : Decimal;
  RISK_REWARD : Decimal;
  RISK_STEP : Decimal;
  PRIORITIZE_STOP_ON_TIE : bool
}.

Definition default_settings : Settings :=
  mkSettings 1 (Dec.mk 100 0) (Dec.mk 2 0) (Dec.mk 1 (-3)) true.

(** [BreakoutStrategy]; [trade_capital] is [self.capital] *)
Record BreakoutStrategy : Type := mkStrategy {
  ref_utc : datetime;
  blue_high : option Decimal;
  blue_low : option Decimal;
  active : option Position;
  max_positions : Z;
  risk_step : Decimal;
  rr : Decimal;
  trade_capital : Decimal;
  journal : list JournalRow
}.

(** [BreakoutStrategy.__init__] with an empty journal *)
Definition BreakoutStrategy_init (k : Settings) (ref : datetime) : BreakoutStrategy :=
  mkStrategy ref None None None (MAX_CONCURRENT_POS k) (RISK_STEP k) (RISK_REWARD k)
    (TRADE_CAPITAL k) [].

Definition with_active (st : BreakoutStrategy) (a : option Position)
    (j : list JournalRow) : BreakoutStrategy :=
  mkStrategy (ref_utc st) (blue_high st) (blue_low st) a (max_positions st)
    (risk_step st) (rr st) (trade_capital st) j.

(** the three assignments of [_exit] on the active position *)
Definition closed (p : Position) (o : Outcome) (price : Decimal) (ts : datetime)
  : Position :=
  mkPosition (side p) (entry p) (stop p) (target p) (capital p) (opened_at p)
    (Some price) (Some ts) (Some o).

(** [_exit] *)
Definition _exit (o : Outcome) (price : Decimal) (ts : datetime)
    (st : BreakoutStrategy) : BreakoutStrategy :=
  match active st with
  | None => st
  | Some p => with_active st None (journal st ++ [LogExit (closed p o price ts) "exit"])
  end.

(** [on_live_price] *)
Definition on_live_price (price : Decimal) (ts : datetime) (st : BreakoutStrategy)
  : BreakoutStrategy :=
  match active st with
  | None => st
  | Some p =>
      match side p with
      | long =>
          if Dec.geb price (target p) then _exit win (target p) ts st
          else if Dec.leb price (stop p) then _exit loss (stop p) ts st
          else st
      | short =>
          if Dec.leb price (target p) then _exit win (target p) ts st
          else if Dec.geb price (stop p) then _exit loss (stop p) ts st
          else st
      end
  end.

(** [set_blue] *)
Definition set_blue (hi lo : Decimal) (st : BreakoutStrategy) : BreakoutStrategy :=
  mkStrategy (ref_utc st) (Some hi) (Some lo) (active st) (max_positions st)
    (risk_step st) (rr st) (trade_capital st) (journal st).

(** [_enter]; the journal note is [("entered " + note).strip()], and the
    notes passed are "basis=OPEN" and "basis=CLOSE" *)
Definition _enter (sd : Side) (price : Decimal) (ts : datetime) (note : string)
    (st : BreakoutStrategy) : BreakoutStrategy :=
  match active st with
  | Some _ => st
  | None =>
      if max_positions st <? 1 then st
      else
        let stop_ := match sd with
                     | long => Dec.sub price (risk_step st)
                     | short => Dec.add price (risk_step st)
                     end in
        let target_ := match sd with
                       | long => Dec.add price (Dec.mul (rr st) (risk_step st))
                       | short => Dec.sub price (Dec.mul (rr st) (risk_step st))
                       end in
        let p := mkPosition sd price stop_ target_ (trade_capital st) ts None None None in
        with_active st (Some p) (journal st ++ [LogEntry p ("entered " +:+ note)])
  end.

(** [_manage_position]; [tie] is the module constant [PRIORITIZE_STOP_ON_TIE] *)
Definition _manage_position (tie : bool) (c : Candle) (st : BreakoutStrategy)
  : BreakoutStrategy :=
  match active st with
  | None => st
  | Some p =>
      let hit_stop := match side p with
                      | long => Dec.leb (low c) (stop p)
                      | short => Dec.geb (high c) (stop p)
                      end in
      let hit_target := match side p with
                        | long => Dec.geb (high c) (target p)
                        | short => Dec.leb (low c) (target p)
                        end in
      if tie then
        if hit_stop then _exit loss (stop p) (time c) st
        else if hit_target then _exit win (target p) (time c) st
        else st
      else
        if hit_target then _exit win (target p) (time c) st
        else if hit_stop then _exit loss (stop p) (time c) st
        else st
  end.

(** [on_new_close] *)
Definition on_new_close (tie : bool) (c : Candle) (st : BreakoutStrategy)
  : BreakoutStrategy :=
  if time c <? ref_utc st then st
  else
    match blue_high st, blue_low st with
    | Some bh, Some bl =>
        match active st with
        | Some _ => _manage_position tie c st
        | None =>
            if max_positions st <=? 0 then st
            else if Dec.gtb (open c) bh || Dec.gtb (close c) bh then
              if Dec.gtb (open c) bh
              then _enter long (open c) (time c) "basis=OPEN" st
              else _enter long (close c) (time c) "basis=CLOSE" st
            else if Dec.ltb (open c) bl || Dec.ltb (close c) bl then
              if Dec.ltb (open c) bl
              then _enter short (open c) (time c) "basis=OPEN" st
              else _enter short (close c) (time c) "basis=CLOSE" st
            else st
        end
    | _, _ => st
    end.

(** the calls that reach the strategy *)
Inductive Event : Type :=
| NewClose (c : Candle)
| LivePrice (price : Decimal) (ts : datetime)
| SetBlue (hi lo : Decimal).

Definition step (tie : bool) (st : BreakoutStrategy) (e : Event) : BreakoutStrategy :=
  match e with
  | NewClose c => on_new_close tie c st
  | LivePrice price ts => on_live_price price ts st
  | SetBlue hi lo => set_blue hi lo st
  end.

Definition run (tie : bool) (es : list Event) (st : BreakoutStrategy) : BreakoutStrategy :=
  foldl (step tie) st es.

(** Reading the journal back: the position it shows as open after its
    rows. [None] when a row opens a position while one is open, or closes
    one that is not the open one. *)
Definition reopened (p : Position) : Position :=
  mkPosition (side p) (entry p) (stop p) (target p) (capital p) (opened_at p)
    None None None.

Fixpoint replay (cur : option Position) (rows : list JournalRow)
  : option (option Position) :=
  match rows with
  | [] => Some cur
  | LogEntry p _ :: rest =>
      match cur with
      | None => replay (Some p) rest
      | Some _ => None
      end
  | LogExit p _ :: rest =>
      match cur with
      | Some q => if decide (reopened p = q) then replay None rest else None
      | None => None
      end
  end.

Definition is_entry (r : JournalRow) : bool :=
  match r with LogEntry _ _ => true | LogExit _ _ => false end.

(** number of positions the journal has opened *)
Definition entries (rows : list JournalRow) : nat := length (List.filter is_entry rows).

(** Decimal literals of the examples *)
Definition d3 (n : Z) : Decimal := Dec.mk n (-3).

(* ===================================================================== *)
(** ** core.py: [CandleStore.last_n_until] and [local_today_to_utc] *)
(* ===================================================================== *)

(** the loop [for i in range(s.len() - 1, -1, -1)] with [i] indices still
    to visit and [out] collected so far; [None] is an [IndexError] *)
Fixpoint scan_back (s : CandleSeries) (until_utc : datetime) (n : nat)
    (i : nat) (out : list Candle) : option (list Candle) :=
  match i with
  | O => Some out
  | S j =>
      ct ← times s !! j;
      if ct <=? until_utc then
        c ← candle_at s j;
        if (length (out ++ [c]) =? n)%nat then Some (out ++ [c])
        else scan_back s until_utc n j (out ++ [c])
      else scan_back s until_utc n j out
  end.

(** [CandleStore.last_n_until]; [None] is the [KeyError] of [self.series[tf]] *)
Definition last_n_until (st : gmap string CandleSeries) (tf : string)
    (until_utc : datetime) (n : Z) : option (list Candle) :=
  s ← st !! tf;
  if (series_len s =? 0)%nat || (n <=? 0) then Some []
  else out ← scan_back s until_utc (Z.to_nat n) (series_len s) []; Some (reverse out).

Definition hour_us : Z := 3600 * 1000000.
Definition minute_us : Z := 60 * 1000000.
Definition day_us : Z := 24 * hour_us.

(** [local_today_to_utc] with the clock reading [now_utc] passed in;
    [None] is the [ValueError] of [datetime.replace] on an hour or minute
    out of range *)
Definition local_today_to_utc (now_utc : datetime) (hour_local minute_local : Z)
    (tz_offset_hours : Z) : option datetime :=
  let now_local := now_utc + tz_offset_hours * hour_us in
  if (0 <=? hour_local) && (hour_local <? 24) && (0 <=? minute_local) && (minute_local <? 60)
  then
    let target_local :=
      now_local - now_local mod day_us + hour_local * hour_us + minute_local * minute_us in
    Some (target_local - tz_offset_hours * hour_us)
  else None.

(* ===================================================================== *)
(** ** data.py: [CandleRecorder] and the pair name of [KrakenWS] *)
(* ===================================================================== *)

(** the labels [main] and [poll_loop] format: "REF_T-k", "POST_kkkk",
    "LIVE_kkkk" *)
Inductive Label : Type := REF_T (k : nat) | POST (k : nat) | LIVE (k : nat).

(** a row of the candle file *)
Record CsvRow : Type := mkRow {
  row_candle : Candle;
  row_label : Label;
  row_timeframe : string
}.

(** [CandleRecorder.append]; [now_min] is the recorder's own clock reading *)
Definition recorder_append (now_min : datetime) (file : list CsvRow)
    (candle : Candle) (label : Label) (timeframe : string) : list CsvRow :=
  if (now_min <=? time candle) || (trades candle <=? 0)
     || Dec.leb (volume candle) (Dec.of_Z 0)
  then file
  else file ++ [mkRow candle label timeframe].

(** [CandleRecorder.append_many] *)
Definition recorder_append_many (now_min : datetime) (file : list CsvRow)
    (candles : list Candle) (labels : list Label) (timeframe : string) : list CsvRow :=
  foldl (fun f cl =>
           if (time cl.1 <? now_min) && (0 <? trades cl.1)
              && Dec.gtb (volume cl.1) (Dec.of_Z 0)
           then f ++ [mkRow cl.1 cl.2 timeframe] else f)
        file (zip candles labels).

(** [self.ws_pair] of [KrakenWS.__init__]:
    [pair if "/" in pair else f"{pair[:-3]}/{pair[-3:]}"] *)
Definition ws_pair (pair : list ascii) : list ascii :=
  if bool_decide ("/"%char ∈ pair) then pair
  else take (length pair - 3) pair ++ ["/"%char] ++ drop (length pair - 3) pair.

(* ===================================================================== *)
(** ** tradebot.py: [try_set_blue] and the body of [poll_loop] *)
(* ===================================================================== *)

(** [max(xs)] and [min(xs)] on a non-empty list: the first extremal element *)
Definition py_max (x : Decimal) (xs : list Decimal) : Decimal :=
  foldl (fun m y => if Dec.gtb y m then y else m) x xs.
Definition py_min (x : Decimal) (xs : list Decimal) : Decimal :=
  foldl (fun m y => if Dec.ltb y m then y else m) x xs.

(** [idxs]: the slots whose timestamp lies in [[start, end_inclusive]] *)
Definition window_idxs (start end_inclusive : datetime) (s : CandleSeries) : list nat :=
  List.filter
    (fun i => match times s !! i with
              | Some ts => (start <=? ts) && (ts <=? end_inclusive)
              | None => false
              end)
    (seq 0 (length (times s))).

(** [try_set_blue] on the "1m" ring: the latch [blue_set] and the strategy
    (absent when the breakout strategy is switched off). [None] is an
    [IndexError]. *)
Definition try_set_blue (ref : datetime) (s : CandleSeries) (blue_set : bool)
    (strategy : option BreakoutStrategy) : option (bool * option BreakoutStrategy) :=
  if blue_set then Some (blue_set, strategy)
  else
    let start := ref - 5 * minute_us in
    let end_inclusive := ref - 1 * minute_us in
    let idxs := window_idxs start end_inclusive s in
    if (length idxs =? 5)%nat
       && match last idxs ≫= (fun i => times s !! i) with
          | Some t => t =? end_inclusive
          | None => false
          end
    then
      hs ← mapM (fun i => highs s !! i) idxs;
      ls ← mapM (fun i => lows s !! i) idxs;
      match hs, ls with
      | h :: hs', l :: ls' =>
          let bh := py_max h hs' in
          let bl := py_min l ls' in
          Some (true, (fun st => set_blue bh bl (set_blue bh bl st)) <$> strategy)
      | _, _ => None
      end
    else Some (blue_set, strategy).

(** what [poll_loop] carries from one iteration to the next *)
Record Bot : Type := mkBot {
  bot_feed : DataFeed;
  last_written_time : option datetime;
  candle_file : list CsvRow;
  live_label_counter : nat;
  bot_strategy : option BreakoutStrategy
}.

(** [Candle(ct, s1.opens[-1], ..., s1.trades[-1])] *)
Definition newest_candle (s1 : CandleSeries) : option Candle :=
  t ← last (times s1); o ← last (opens s1); h ← last (highs s1); l ← last (lows s1);
  c ← last (closes s1); v ← last (vols s1); w ← last (vwaps s1); n ← last (tradess s1);
  Some (mkCandle t o h l c v w n).

(** one pass of the [while] body of [poll_loop]: the poll, the candle
    file, and the two calls of [strategy.on_new_close]. An exception leaves
    the body with what was done so far. [now_min] is the clock read by
    [poll_once], [rec_now] the one read by the recorder. *)
Definition poll_iteration (tie : bool) (up : Upstream) (now_min rec_now : datetime)
    (b : Bot) : Bot :=
  let r := poll_once up now_min (bot_feed b) in
  let b1 := mkBot (fst r) (last_written_time b) (candle_file b) (live_label_counter b)
              (bot_strategy b) in
  if negb (snd r) then b1
  else
    match store (fst r) !! "1m"%string with
    | None => b1
    | Some s1 =>
        match series_last_time s1 with
        | None => b1
        | Some ct =>
            if match last_written_time b with
               | None => true
               | Some lw => lw <? ct
               end
            then
              match newest_candle s1 with
              | None => b1
              | Some c =>
                  mkBot (fst r) (Some ct)
                    (recorder_append rec_now (candle_file b) c
                       (LIVE (live_label_counter b)) "1m")
                    (S (live_label_counter b))
                    ((fun st => on_new_close tie c (on_new_close tie c st))
                       <$> bot_strategy b)
              end
            else b1
        end
    end.

(* ===================================================================== *)
(** ** Concrete data used by the examples *)
(* ===================================================================== *)

(** a minute of 2023-11-14, in microseconds: 22:13 UTC plus [k] minutes *)
Definition minute (k : Z) : datetime := (1700000000 + 20 + 60 * k) * 1000000.

(** a traded candle at minute [k] with round prices *)
Definition bar (k : Z) (o h l c : Z) : Candle :=
  mkCandle (minute k) (d3 o) (d3 h) (d3 l) (d3 c) (Dec.mk 2500 0) (d3 ((h + l) / 2)) 7.

(** a ring of capacity 1000 holding one candle, at minute 2 *)
Definition ring_at_2 : CandleSeries :=
  series_append (CandleSeries_init 1000) (bar 2 1050 1052 1049 1051).

(** an older candle, at minute 1 *)
Definition stale_bar : Candle := bar 1 1048 1050 1047 1050.

Definition one_minute : list (string * Z) := [("1m"%string, 1)].

(** a feed whose ring ends at minute 2 and whose watermark agrees *)
Definition feed_at_2 : DataFeed :=
  mkFeed one_minute {["1m"%string := ring_at_2]}
    {["1m"%string := Some (timestamp_int (minute 2))]}.

(** the same ring under a watermark still at minute 1 *)
Definition feed_behind : DataFeed :=
  mkFeed one_minute {["1m"%string := ring_at_2]}
    {["1m"%string := Some (timestamp_int (minute 1))]}.

(** the vendor has nothing after minute 2 but the candle in progress *)
Definition quiet_upstream : Upstream :=
  fun _ _ => Some [stale_bar; bar 2 1050 1052 1049 1051; bar 3 1051 1051 1051 1051].

(** the vendor has closed minute 3 and minute 4 is in progress *)
Definition fresh_upstream : Upstream :=
  fun _ _ => Some [bar 2 1050 1052 1049 1051; bar 3 1051 1053 1050 1052;
                   bar 4 1052 1052 1052 1052].

(** a ring holding minutes 1 to 6 *)
Definition ring6 : CandleSeries :=
  foldl series_append (CandleSeries_init 1000)
    [bar 1 1048 1050 1047 1050; bar 2 1050 1052 1049 1051; bar 3 1051 1053 1050 1052;
     bar 4 1052 1054 1051 1053; bar 5 1053 1055 1052 1054; bar 6 1054 1056 1053 1055].

(** [bar] with another vwap *)
Definition with_vwap (w : Decimal) (c : Candle) : Candle :=
  mkCandle (time c) (open c) (high c) (low c) (close c) (volume c) w (trades c).

(** the vendor re-serves minutes 2 to 6 as stored, but for the vwap of
    minute 6; minute 7 is in progress *)
Definition vwap_upstream : Upstream :=
  fun _ _ => Some [bar 2 1050 1052 1049 1051; bar 3 1051 1053 1050 1052;
                   bar 4 1052 1054 1051 1053; bar 5 1053 1055 1052 1054;
                   with_vwap (d3 1099) (bar 6 1054 1056 1053 1055);
                   bar 7 1055 1055 1055 1055].

(** the vendor re-serves minutes 1 to 5 and reports minute 6 without
    trades; minute 4 comes with another high *)
Definition lagging_upstream : Upstream :=
  fun _ _ => Some [bar 1 1048 1050 1047 1050; bar 2 1050 1052 1049 1051;
                   bar 3 1051 1053 1050 1052; bar 4 1052 1057 1051 1053;
                   bar 5 1053 1055 1052 1054;
                   mkCandle (minute 6) (d3 1054) (d3 1054) (d3 1054) (d3 1054)
                     (Dec.mk 0 0) (d3 0) 0].

(** the vendor re-serves minutes 2 to 6 with another high for minute 4 *)
Definition corrected_upstream : Upstream :=
  fun _ _ => Some [bar 2 1050 1052 1049 1051; bar 3 1051 1053 1050 1052;
                   bar 4 1052 1057 1051 1053; bar 5 1053 1055 1052 1054;
                   bar 6 1054 1056 1053 1055; bar 7 1055 1055 1055 1055].

(** a minute without trades, as the vendor reports it *)
Definition idle_bar (k : Z) (p : Z) : Candle :=
  mkCandle (minute k) (d3 p) (d3 p) (d3 p) (d3 p) (Dec.mk 0 0) (d3 0) 0.

(** at start-up, within minute 0: minute -1 had no trades and minute 0 is
    in progress *)
Definition startup_upstream : Upstream :=
  fun _ _ => Some [bar (-2) 1048 1050 1047 1050; idle_bar (-1) 1050;
                   bar 0 1050 1051 1050 1051].

(** the strategy after the levels 1.050 / 1.040 are set and the candle of
    minute 1, opening at 1.060, has closed: a long position is open *)
Definition long_at_1060 : BreakoutStrategy :=
  run true [SetBlue (d3 1050) (d3 1040); NewClose (bar 1 1060 1061 1059 1061)]
    (BreakoutStrategy_init default_settings (minute 0)).

Definition position_1060 : Position :=
  mkPosition long (d3 1060) (d3 1059) (d3 1062) (Dec.mk 100 0) (minute 1) None None None.

(** a trade at 1.063, 12.5 s into minute 2 *)
Definition tick_ts : datetime := minute 2 + 12500000.

(** the candle of minute 2, which contains that trade *)
Definition bar_after_tick : Candle := bar 2 1061 1064 1060 1063.

(* ===================================================================== *)
(** ** Vocabulary of the statements *)
(* ===================================================================== *)

(** what the local [last_time] of the poll loop knows about the ring *)
Definition bounded_by (lt : option datetime) (ts : list datetime) : Prop :=
  match lt with
  | None => ts = []
  | Some l => Forall (fun x => x <= l) ts
  end.

(** every ring of the store is strictly increasing by timestamp *)
Definition store_increasing (st : gmap string CandleSeries) : Prop :=
  forall tf s, st !! tf = Some s -> increasing (times s).

(** every fetch for an interval of [ivs] answers, and answers with no
    closed, valid record newer than the last one stored for that interval *)
Definition quiet (up : Upstream) (now_min : datetime)
    (st : gmap string CandleSeries) (ivs : list (string * Z)) : Prop :=
  forall tf minutes since, (tf, minutes) ∈ ivs ->
    exists rows, up minutes since = Some rows /\
      forall c, c ∈ rows -> closed_valid now_min c = true ->
        exists s t, st !! tf = Some s /\ series_last_time s = Some t /\ time c <= t.

(** what a poll of one interval does when nothing is accepted *)
Definition resync (f : DataFeed) (tf : string) : option DataFeed :=
  s ← store f !! tf;
  Some (mkFeed (intervals f) (store f)
          (match series_last_time s with
           | Some t => <[tf := Some (timestamp_int t)]> (_last_ts f)
           | None => _last_ts f
           end)).

Fixpoint resync_all (ivs : list (string * Z)) (f : DataFeed) : DataFeed * bool :=
  match ivs with
  | [] => (f, true)
  | iv :: rest =>
      match resync f (fst iv) with
      | None => (f, false)
      | Some f' => resync_all rest f'
      end
  end.

(** the watermark of [tf] agrees with the ring's last timestamp *)
Definition synced (f : DataFeed) (tf : string) : Prop :=
  forall s t, store f !! tf = Some s -> series_last_time s = Some t ->
    _last_ts f !! tf = Some (Some (timestamp_int t)).

(** slot [idx] holding the eight values of [a], nothing else changed *)
Definition overwrite (s : CandleSeries) (ia : nat * Candle) : CandleSeries :=
  mkSeries (capacity s)
    (<[ia.1 := time ia.2]> (times s)) (<[ia.1 := open ia.2]> (opens s))
    (<[ia.1 := high ia.2]> (highs s)) (<[ia.1 := low ia.2]> (lows s))
    (<[ia.1 := close ia.2]> (closes s)) (<[ia.1 := volume ia.2]> (vols s))
    (<[ia.1 := vwap ia.2]> (vwaps s)) (<[ia.1 := trades ia.2]> (tradess s)).

(** the comparison of a stored candle [c] with a fetched one [a], field
    by field as the verifier makes it: vwap is not among the fields *)
Definition differs (c a : Candle) : bool :=
  _neq (float_of_timestamp (time c)) (float_of_timestamp (time a)) ||
  _neq (open c) (open a) || _neq (high c) (high a) || _neq (low c) (low a) ||
  _neq (close c) (close a) || _neq (volume c) (volume a) ||
  negb (trades c =? trades a).

(** the journal reads back as the engine's state, and the open position
    carries no exit data *)
Definition consistent (st : BreakoutStrategy) : Prop :=
  replay None (journal st) = Some (active st) /\
  forall p, active st = Some p -> reopened p = p.

(** the position [_enter] builds *)
Definition entered (sd : Side) (price : Decimal) (ts : datetime)
    (st : BreakoutStrategy) : Position :=
  mkPosition sd price
    (match sd with
     | long => Dec.sub price (risk_step st)
     | short => Dec.add price (risk_step st)
     end)
    (match sd with
     | long => Dec.add price (Dec.mul (rr st) (risk_step st))
     | short => Dec.sub price (Dec.mul (rr st) (risk_step st))
     end)
    (trade_capital st) ts None None None.

(** the live price has reached the target of [p] *)
Definition reaches_target (price : Decimal) (p : Position) : bool :=
  match side p with
  | long => Dec.geb price (target p)
  | short => Dec.leb price (target p)
  end.

(** the candle triggers no entry against the levels [bh], [bl] *)
Definition no_trigger (c : Candle) (bh bl : Decimal) : bool :=
  negb (Dec.gtb (open c) bh) && negb (Dec.gtb (close c) bh) &&
  negb (Dec.ltb (open c) bl) && negb (Dec.ltb (close c) bl).

(** the ring holding the candles [cs], oldest first *)
Definition series_of (cap : nat) (cs : list Candle) : CandleSeries :=
  mkSeries cap (time <$> cs) (open <$> cs) (high <$> cs) (low <$> cs)
    (close <$> cs) (volume <$> cs) (vwap <$> cs) (trades <$> cs).

(** the candles a ring holds, oldest first *)
Definition series_candles (s : CandleSeries) : list Candle :=
  omap (candle_at s) (seq 0 (series_len s)).

(** numeric order on Decimal *)
Definition dec_le (a b : Decimal) : Prop := Dec.leb a b = true.
Definition dec_lt (a b : Decimal) : Prop := Dec.ltb a b = true.
Definition dec_eq (a b : Decimal) : Prop := Dec.cmp a b = Eq.

(** an exit row closes at the position's own level: the target for a
    win, the stop for a loss, and carries the time of the exit *)
Definition exit_at_own_level (r : JournalRow) : Prop :=
  match r with
  | LogEntry _ _ => True
  | LogExit p _ =>
      is_Some (closed_at p) /\
      ((outcome p = Some win /\ exit_price p = Some (target p)) \/
       (outcome p = Some loss /\ exit_price p = Some (stop p)))
  end.

(** an entry row as the settings [k] and the reference time dictate *)
Definition entry_by_the_book (k : Settings) (ref : datetime) (r : JournalRow) : Prop :=
  match r with
  | LogExit _ _ => True
  | LogEntry p _ =>
      ref <= opened_at p /\ capital p = TRADE_CAPITAL k /\
      exit_price p = None /\ closed_at p = None /\ outcome p = None /\
      match side p with
      | long =>
          stop p = Dec.sub (entry p) (RISK_STEP k) /\
          target p = Dec.add (entry p) (Dec.mul (RISK_REWARD k) (RISK_STEP k))
      | short =>
          stop p = Dec.add (entry p) (RISK_STEP k) /\
          target p = Dec.sub (entry p) (Dec.mul (RISK_REWARD k) (RISK_STEP k))
      end
  end.

(** the engine still has the settings it was built with *)
Definition configured (k : Settings) (ref : datetime) (st : BreakoutStrategy) : Prop :=
  ref_utc st = ref /\ max_positions st = MAX_CONCURRENT_POS k /\
  risk_step st = RISK_STEP k /\ rr st = RISK_REWARD k /\
  trade_capital st = TRADE_CAPITAL k.

Definition is_set_blue (e : Event) : bool :=
  match e with SetBlue _ _ => true | _ => false end.

(** every ring has its eight deques at one length, within its capacity *)
Definition store_well_formed (st : gmap string CandleSeries) : Prop :=
  forall tf s, st !! tf = Some s -> series_wf s /\ (series_len s <= capacity s)%nat.

(** Python's default decimal context keeps 28 significant digits and
    exponents within six digits; an arithmetic result whose exact
    coefficient and exponent fit is returned as it is, unrounded *)
Definition fits_context (d : Decimal) : Prop :=
  Z.abs (Dec.coef d) < 10 ^ 28 /\ -999999 <= Dec.dexp d <= 999972.

(* ===================================================================== *)
(** * Properties *)
(* ===================================================================== *)

(** ** The ring: unconditional append, monotone polling *)

Section Increasing.

Lemma increasing_bound (ts : list datetime) (l : datetime) :
  increasing ts -> last ts = Some l -> Forall (fun x => x <= l) ts.
Proof.
  intros Hs Hl. apply last_Some in Hl as [ts' ->].
  apply StronglySorted_app in Hs as (Hlt & _ & _).
  apply Forall_app. split.
  - apply Forall_forall. intros x Hx.
    specialize (Hlt x l Hx). apply Z.lt_le_incl, Hlt. set_solver.
  - constructor; [lia | constructor].
Qed.

Lemma increasing_snoc (ts : list datetime) (t : datetime) :
  increasing ts -> Forall (fun x => x < t) ts -> increasing (ts ++ [t]).
Proof.
  intros Hs Hb. apply StronglySorted_app. repeat split; try done.
  - intros x y Hx Hy. apply list_elem_of_singleton in Hy as ->.
    by eapply Forall_forall in Hb.
  - repeat constructor.
Qed.

Lemma increasing_drop (n : nat) (ts : list datetime) :
  increasing ts -> increasing (drop n ts).
Proof.
  intros Hs. rewrite <- (take_drop n ts) in Hs.
  by apply StronglySorted_app_1_r in Hs.
Qed.

Lemma deque_append_increasing (cap : nat) (ts : list datetime) (t : datetime) :
  increasing ts -> Forall (fun x => x < t) ts -> increasing (deque_append cap ts t).
Proof. intros. unfold deque_append. by apply increasing_drop, increasing_snoc. Qed.

Lemma deque_append_bound (cap : nat) (ts : list datetime) (t : datetime) :
  Forall (fun x => x < t) ts -> Forall (fun x => x <= t) (deque_append cap ts t).
Proof.
  intros Hb. unfold deque_append. apply Forall_drop, Forall_app. split.
  - eapply Forall_impl; [exact Hb | simpl; lia].
  - constructor; [lia | constructor].
Qed.

End Increasing.

Lemma bounded_by_last (ts : list datetime) :
  increasing ts -> bounded_by (last ts) ts.
Proof.
  intros Hs. destruct (last ts) as [l|] eqn:E; simpl.
  - by apply increasing_bound.
  - by apply last_None.
Qed.

Lemma accept_step_inv (acc : CandleSeries * option datetime) (c : Candle) :
  increasing (times (fst acc)) -> bounded_by (snd acc) (times (fst acc)) ->
  increasing (times (fst (accept_step acc c))) /\
  bounded_by (snd (accept_step acc c)) (times (fst (accept_step acc c))).
Proof.
  destruct acc as [s lt]. unfold accept_step. simpl. intros Hs Hb.
  destruct (accepts lt c) eqn:Ha; simpl; [|done].
  assert (Forall (fun x => x < time c) (times s)) as Hlt.
  { destruct lt as [l|]; simpl in *.
    - apply Z.ltb_lt in Ha. eapply Forall_impl; [exact Hb | simpl; lia].
    - rewrite Hb. constructor. }
  split; [by apply deque_append_increasing | by apply deque_append_bound].
Qed.

Lemma accept_loop_inv (safe : list Candle) (acc : CandleSeries * option datetime) :
  increasing (times (fst acc)) -> bounded_by (snd acc) (times (fst acc)) ->
  increasing (times (fst (foldl accept_step acc safe))).
Proof.
  revert acc. induction safe as [|c safe IH]; intros acc Hs Hb; simpl; [done|].
  destruct (accept_step_inv acc c Hs Hb). by apply IH.
Qed.

Lemma poll_tf_increasing up now_min f iv f' :
  store_increasing (store f) -> poll_tf up now_min f iv = Some f' ->
  store_increasing (store f').
Proof.
  intros Hinc Hp. unfold poll_tf in Hp. cbv zeta in Hp.
  destruct (up iv.2 (watermark f iv.1)) as [candles|]; simpl in Hp; [|done].
  destruct (store f !! iv.1) as [s|] eqn:Es; simpl in Hp; [|done].
  assert (increasing (times (fst (foldl accept_step (s, series_last_time s)
            (List.filter (closed_valid now_min) candles))))) as Hnew.
  { apply accept_loop_inv; simpl; [by eapply Hinc|].
    apply bounded_by_last. by eapply Hinc. }
  assert (store_increasing (<[iv.1 := fst (foldl accept_step (s, series_last_time s)
            (List.filter (closed_valid now_min) candles))]> (store f))) as Hst.
  { intros tf s' Hl. destruct (decide (iv.1 = tf)) as [E|Hne].
    - subst tf. rewrite lookup_insert_eq in Hl. by inversion Hl; subst.
    - rewrite lookup_insert_ne in Hl by done. by eapply Hinc. }
  destruct (snd _) in Hp; inversion Hp; subst; exact Hst.
Qed.

Lemma poll_intervals_increasing up now_min ivs f :
  store_increasing (store f) ->
  store_increasing (store (fst (poll_intervals up now_min ivs f))).
Proof.
  revert f. induction ivs as [|iv ivs IH]; intros f Hinc; simpl; [done|].
  destruct (poll_tf up now_min f iv) as [f'|] eqn:E; simpl; [|done].
  apply IH. by eapply poll_tf_increasing.
Qed.

Lemma series_append_pushes (s : CandleSeries) (c : Candle) :
  (0 < capacity s)%nat -> series_last_time (series_append s c) = Some (time c).
Proof.
  intros Hcap. unfold series_last_time, series_append, deque_append. simpl.
  rewrite length_app. simpl.
  destruct (decide (length (times s) + 1 - capacity s <= length (times s))%nat) as [Hle|]; [|lia].
  rewrite drop_app_le by done. apply last_snoc.
Qed.

(** C2, the claim as stated fails: [CandleSeries.append] pushes a record
    older than the last stored one, and the ring is no longer increasing. *)
Lemma append_does_not_reject :
  series_last_time ring_at_2 = Some (minute 2) /\
  time stale_bar <= minute 2 /\
  series_append ring_at_2 stale_bar <> ring_at_2 /\
  times (series_append ring_at_2 stale_bar) = [minute 2; minute 1] /\
  increasing (times ring_at_2) /\
  ~ increasing (times (series_append ring_at_2 stale_bar)).
Proof.
  repeat split; try (vm_compute; congruence).
  - repeat constructor.
  - intros H. apply StronglySorted_cons in H as [H _].
    apply Forall_cons in H as [H _]. vm_compute in H. congruence.
Qed.

(** C2, amended: [CandleSeries.append] itself never rejects (on a ring of
    positive capacity the pushed record is always the new tail); the
    timestamp test is made by [poll_once] before each append, and every run
    of [poll_once] calls keeps each ring of the store strictly increasing
    by timestamp. *)
Theorem poll_keeps_rings_increasing :
  (forall s c, (0 < capacity s)%nat ->
     series_last_time (series_append s c) = Some (time c)) /\
  (forall calls f, store_increasing (store f) ->
     store_increasing (store (poll_many calls f))).
Proof.
  split; [exact series_append_pushes|].
  induction calls as [|call calls IH]; intros f Hinc; simpl; [done|].
  apply IH. unfold poll_once. by apply poll_intervals_increasing.
Qed.

Lemma feed_at_2_increasing : store_increasing (store feed_at_2).
Proof.
  intros tf s Hl. unfold feed_at_2 in Hl. simpl in Hl.
  apply lookup_singleton_Some in Hl as [_ <-].
  vm_compute. repeat constructor.
Defined.

Lemma poll_keeps_rings_increasing_witness :
  store_increasing (store feed_at_2) /\
  store_increasing (store (poll_many [(fresh_upstream, minute 4); (quiet_upstream, minute 4)]
                             feed_at_2)).
Proof.
  split; [exact feed_at_2_increasing|].
  apply (proj2 poll_keeps_rings_increasing). exact feed_at_2_increasing.
Defined.

(** ** The watermark *)

Lemma accept_loop_accepted (safe : list Candle) (s : CandleSeries) (lt : option datetime) :
  snd (foldl accept_step (s, lt) safe) =
  match last (accepted lt safe) with
  | Some c => Some (time c)
  | None => lt
  end.
Proof.
  revert s lt. induction safe as [|c safe IH]; intros s lt; simpl; [done|].
  unfold accept_step at 2. simpl. destruct (accepts lt c); simpl.
  - rewrite IH. rewrite last_cons. by destruct (last (accepted _ safe)).
  - apply IH.
Qed.

(** the accepted records come in strictly increasing order, above [lt] *)
Lemma accepted_increasing (safe : list Candle) (lt : option datetime) :
  increasing (time <$> accepted lt safe) /\
  Forall (fun c => accepts lt c = true) (accepted lt safe).
Proof.
  revert lt. induction safe as [|c safe IH]; intros lt; simpl.
  - split; constructor.
  - destruct (accepts lt c) eqn:Ha; [|apply IH].
    destruct (IH (Some (time c))) as [Hs Hb]. split.
    + simpl. constructor; [done|]. apply Forall_fmap.
      eapply Forall_impl; [exact Hb|]. simpl. intros x Hx. by apply Z.ltb_lt.
    + constructor; [done|]. eapply Forall_impl; [exact Hb|]. simpl.
      intros x Hx. apply Z.ltb_lt in Hx. destruct lt as [l|]; simpl in *; [|done].
      apply Z.ltb_lt in Ha. apply Z.ltb_lt. lia.
Qed.

Lemma last_is_newest (safe : list Candle) (lt : option datetime) (c : Candle) :
  last (accepted lt safe) = Some c ->
  Forall (fun c' => time c' <= time c) (accepted lt safe).
Proof.
  intros Hl. destruct (accepted_increasing safe lt) as [Hs _].
  assert (last (time <$> accepted lt safe) = Some (time c)) as Hl'.
  { rewrite fmap_last, Hl. done. }
  pose proof (increasing_bound _ _ Hs Hl') as Hb.
  apply Forall_forall. intros x Hx.
  eapply Forall_forall in Hb; [exact Hb|]. by apply list_elem_of_fmap_2.
Qed.

(** C9, the claim as stated fails: a call that accepts no record moves a
    watermark that was behind the ring's last timestamp. *)
Lemma watermark_moves_without_accept :
  accepted (series_last_time ring_at_2)
    (List.filter (closed_valid (minute 3)) [stale_bar; bar 2 1050 1052 1049 1051]) = [] /\
  watermark feed_behind "1m" = Some (timestamp_int (minute 1)) /\
  watermark (fst (poll_once quiet_upstream (minute 3) feed_behind)) "1m"
    = Some (timestamp_int (minute 2)) /\
  timestamp_int (minute 1) <> timestamp_int (minute 2).
Proof. repeat split; vm_compute; congruence. Qed.

(** C9, amended: processing one interval's fetch sets that interval's
    watermark to the timestamp of the newest record accepted in the call;
    when the call accepts none, the watermark is set to the ring's last
    stored timestamp if the ring is not empty, and is left unchanged if it
    is empty. No other interval's watermark is touched. *)
Theorem watermark_after_poll up now_min f tf minutes rows s :
  up minutes (watermark f tf) = Some rows ->
  store f !! tf = Some s ->
  exists f', poll_tf up now_min f (tf, minutes) = Some f' /\
    (forall tf', tf' <> tf -> _last_ts f' !! tf' = _last_ts f !! tf') /\
    match last (accepted (series_last_time s) (List.filter (closed_valid now_min) rows)) with
    | Some c =>
        _last_ts f' !! tf = Some (Some (timestamp_int (time c))) /\
        Forall (fun c' => time c' <= time c)
          (accepted (series_last_time s) (List.filter (closed_valid now_min) rows))
    | None =>
        match series_last_time s with
        | Some t => _last_ts f' !! tf = Some (Some (timestamp_int t))
        | None => _last_ts f' = _last_ts f
        end
    end.
Proof.
  intros Hup Hs. unfold poll_tf. cbv zeta. simpl. rewrite Hup. simpl. rewrite Hs. simpl.
  eexists. split; [reflexivity|].
  rewrite accept_loop_accepted.
  destruct (last (accepted _ _)) as [c|] eqn:El.
  - simpl. split; [intros tf' Hne; by rewrite lookup_insert_ne|].
    split; [by rewrite lookup_insert_eq | by eapply last_is_newest].
  - destruct (series_last_time s) as [t|]; simpl.
    + split; [intros tf' Hne; by rewrite lookup_insert_ne | by rewrite lookup_insert_eq].
    + done.
Qed.

Lemma watermark_after_poll_witness :
  exists f', poll_tf fresh_upstream (minute 4) feed_at_2 ("1m"%string, 1) = Some f' /\
    _last_ts f' !! "1m"%string = Some (Some (timestamp_int (minute 3))).
Proof.
  destruct (watermark_after_poll fresh_upstream (minute 4) feed_at_2 "1m" 1
              [bar 2 1050 1052 1049 1051; bar 3 1051 1053 1050 1052; bar 4 1052 1052 1052 1052]
              ring_at_2 eq_refl eq_refl) as (f' & Hp & _ & Hw).
  exists f'. split; [exact Hp | exact (proj1 Hw)].
Defined.

(** ** Polling with no new upstream data *)

Lemma accept_loop_none (safe : list Candle) (s : CandleSeries) (lt : option datetime) :
  Forall (fun c => accepts lt c = false) safe ->
  foldl accept_step (s, lt) safe = (s, lt).
Proof.
  induction 1 as [|c safe Hc _ IH]; simpl; [done|].
  unfold accept_step at 2. simpl. by rewrite Hc.
Qed.

Lemma poll_tf_quiet up now_min f tf minutes :
  quiet up now_min (store f) [(tf, minutes)] ->
  poll_tf up now_min f (tf, minutes) = resync f tf.
Proof.
  intros Hq. destruct (Hq tf minutes (watermark f tf)) as (rows & Hup & Hrows); [set_solver|].
  unfold poll_tf, resync. cbv zeta. simpl. rewrite Hup. simpl.
  destruct (store f !! tf) as [s|] eqn:Es; simpl; [|done].
  rewrite accept_loop_none.
  - simpl. rewrite insert_id by done. by destruct (series_last_time s).
  - apply Forall_forall. intros c Hc. apply list_elem_of_In, filter_In in Hc as [Hc Hv].
    apply list_elem_of_In in Hc.
    destruct (Hrows c Hc Hv) as (s' & t & Hs' & Ht & Hle).
    rewrite ?Es in Hs'. inversion Hs'; subst s'. rewrite Ht. simpl.
    apply Z.ltb_ge. exact Hle.
Qed.

Lemma resync_store f tf f' :
  resync f tf = Some f' -> store f' = store f /\ intervals f' = intervals f.
Proof.
  unfold resync. destruct (store f !! tf); simpl; [|done].
  intros H. by inversion H.
Qed.

Lemma resync_all_store ivs f :
  store (fst (resync_all ivs f)) = store f /\
  intervals (fst (resync_all ivs f)) = intervals f.
Proof.
  revert f. induction ivs as [|iv ivs IH]; intros f; simpl; [done|].
  destruct (resync f iv.1) as [f'|] eqn:E; simpl; [|done].
  destruct (resync_store _ _ _ E) as [<- <-]. apply IH.
Qed.

Lemma poll_intervals_quiet up now_min ivs f :
  quiet up now_min (store f) ivs ->
  poll_intervals up now_min ivs f = resync_all ivs f.
Proof.
  revert f. induction ivs as [|[tf minutes] ivs IH]; intros f Hq; simpl; [done|].
  rewrite poll_tf_quiet.
  - destruct (resync f tf) as [f'|] eqn:E; [|done].
    apply IH. destruct (resync_store _ _ _ E) as [-> _].
    intros tf' m since Hin. apply Hq. by apply list_elem_of_further.
  - intros tf' m since Hin. apply Hq.
    apply list_elem_of_singleton in Hin as ->. apply list_elem_of_here.
Qed.

Lemma resync_synced f tf f' : resync f tf = Some f' -> synced f' tf.
Proof.
  unfold resync. destruct (store f !! tf) as [s|] eqn:Es; simpl; [|done].
  intros H s' t Hs' Ht. inversion H; subst f'; simpl in *.
  rewrite Es in Hs'. inversion Hs'; subst s'. rewrite Ht. apply lookup_insert_eq.
Qed.

Lemma resync_keeps_synced f tf tf' f' :
  synced f tf -> resync f tf' = Some f' -> synced f' tf.
Proof.
  intros Hsy H. destruct (decide (tf' = tf)) as [->|Hne]; [by eapply resync_synced|].
  unfold resync in H. destruct (store f !! tf') as [s|] eqn:Es; simpl in H; [|done].
  intros s' t Hs' Ht. inversion H; subst f'; simpl in *.
  destruct (series_last_time s); [rewrite lookup_insert_ne by done|]; by eapply Hsy.
Qed.

Lemma resync_all_keeps_synced ivs f tf :
  synced f tf -> synced (fst (resync_all ivs f)) tf.
Proof.
  revert f. induction ivs as [|iv ivs IH]; intros f Hsy; simpl; [done|].
  destruct (resync f iv.1) as [f'|] eqn:E; simpl; [|done].
  apply IH. by eapply resync_keeps_synced.
Qed.

Lemma resync_fixed f tf :
  synced f tf -> is_Some (store f !! tf) -> resync f tf = Some f.
Proof.
  intros Hsy [s Hs]. unfold resync. rewrite Hs. simpl. f_equal.
  destruct f as [ivs st wm]; simpl in *. f_equal.
  destruct (series_last_time s) as [t|] eqn:Et; [|done].
  apply insert_id. by eapply Hsy.
Qed.

Lemma resync_all_idempotent ivs f :
  fst (resync_all ivs (fst (resync_all ivs f))) = fst (resync_all ivs f).
Proof.
  revert f. induction ivs as [|iv ivs IH]; intros f; simpl; [done|].
  destruct (resync f iv.1) as [f'|] eqn:E; simpl.
  - assert (resync (fst (resync_all ivs f')) iv.1 = Some (fst (resync_all ivs f'))) as ->.
    { apply resync_fixed.
      - apply resync_all_keeps_synced. by eapply resync_synced.
      - destruct (resync_all_store ivs f') as [-> _].
        destruct (resync_store _ _ _ E) as [-> _].
        unfold resync in E. by destruct (store f !! iv.1). }
    apply IH.
  - by rewrite E.
Qed.

(** C4: when the fetches return no closed record newer than what is
    stored, a first [poll_once] leaves the store as it was, and a second
    one leaves both the store and the watermark as the first left them. *)
Theorem poll_once_idempotent up1 now1 up2 now2 f :
  quiet up1 now1 (store f) (intervals f) ->
  quiet up2 now2 (store f) (intervals f) ->
  store (fst (poll_once up1 now1 f)) = store f /\
  fst (poll_once up2 now2 (fst (poll_once up1 now1 f))) = fst (poll_once up1 now1 f).
Proof.
  intros H1 H2. unfold poll_once.
  rewrite (poll_intervals_quiet up1) by done.
  destruct (resync_all_store (intervals f) f) as [Hst Hiv].
  split; [done|].
  rewrite Hiv. rewrite (poll_intervals_quiet up2) by (by rewrite Hst).
  apply resync_all_idempotent.
Qed.

Lemma quiet_upstream_is_quiet :
  quiet quiet_upstream (minute 3) (store feed_behind) (intervals feed_behind).
Proof.
  intros tf minutes since Hin. apply list_elem_of_singleton in Hin. inversion Hin; subst.
  eexists. split; [reflexivity|]. intros c Hc Hv.
  exists ring_at_2, (minute 2). split; [apply lookup_singleton_eq|]. split; [reflexivity|].
  apply elem_of_cons in Hc as [->|Hc]; [vm_compute; congruence|].
  apply elem_of_cons in Hc as [->|Hc]; [vm_compute; congruence|].
  apply elem_of_cons in Hc as [->|Hc]; [vm_compute in Hv; congruence|].
  by apply elem_of_nil in Hc.
Defined.

Lemma poll_once_idempotent_witness :
  store (fst (poll_once quiet_upstream (minute 3) feed_behind)) = store feed_behind /\
  fst (poll_once quiet_upstream (minute 3) (fst (poll_once quiet_upstream (minute 3) feed_behind)))
    = fst (poll_once quiet_upstream (minute 3) feed_behind).
Proof.
  apply (poll_once_idempotent quiet_upstream (minute 3) quiet_upstream (minute 3) feed_behind);
    exact quiet_upstream_is_quiet.
Defined.


(** ** The last-5 verifier *)

Section Verifier.

Lemma deque_append_length {A : Type} (cap : nat) (d : list A) (x : A) :
  length (deque_append cap d x) = Nat.min (length d + 1) cap.
Proof. unfold deque_append. rewrite length_drop, length_app. simpl. lia. Qed.

Lemma series_append_wf (s : CandleSeries) (c : Candle) :
  series_wf s -> series_wf (series_append s c).
Proof.
  unfold series_wf, series_append. simpl.
  intros (H1 & H2 & H3 & H4 & H5 & H6 & H7).
  rewrite !deque_append_length, H1, H2, H3, H4, H5, H6, H7. done.
Qed.

Lemma overwrite_wf (s : CandleSeries) (ia : nat * Candle) :
  series_wf s -> series_wf (overwrite s ia).
Proof. unfold series_wf, overwrite. simpl. by rewrite !length_insert. Qed.

Lemma overwrite_len (s : CandleSeries) (ia : nat * Candle) :
  series_len (overwrite s ia) = series_len s /\ capacity (overwrite s ia) = capacity s.
Proof. unfold series_len, overwrite. simpl. by rewrite length_insert. Qed.

Lemma patch_slot_wf (s : CandleSeries) (idx : nat) (a : Candle) :
  series_wf s -> (idx < series_len s)%nat ->
  patch_slot idx a s = (overwrite s (idx, a), Some tt).
Proof.
  unfold series_wf, series_len. intros (H1 & H2 & H3 & H4 & H5 & H6 & H7) Hlt.
  unfold patch_slot, patch_bind, set_opens, set_highs, set_lows, set_closes,
    set_vols, set_vwaps, set_trades, set_times, write, deque_set. simpl.
  repeat (rewrite decide_True by lia; simpl). reflexivity.
Qed.

Lemma patch_all_wf (ms : list (nat * Candle)) (s : CandleSeries) :
  series_wf s -> Forall (fun ia => (ia.1 < series_len s)%nat) ms ->
  patch_all ms s = (foldl overwrite s ms, Some tt).
Proof.
  revert s. induction ms as [|[idx a] ms IH]; intros s Hwf Hin; simpl; [done|].
  apply Forall_cons in Hin as [Hidx Hin]. unfold patch_bind.
  rewrite patch_slot_wf by done. apply IH; [by apply overwrite_wf|].
  eapply Forall_impl; [exact Hin|]. simpl. intros ia.
  by destruct (overwrite_len s (idx, a)) as [-> _].
Qed.

Lemma foldl_overwrite_wf (ms : list (nat * Candle)) (s : CandleSeries) :
  series_wf s ->
  series_wf (foldl overwrite s ms) /\
  series_len (foldl overwrite s ms) = series_len s /\
  capacity (foldl overwrite s ms) = capacity s.
Proof.
  revert s. induction ms as [|ia ms IH]; intros s Hwf; simpl; [done|].
  destruct (IH (overwrite s ia) (overwrite_wf s ia Hwf)) as (H1 & H2 & H3).
  destruct (overwrite_len s ia) as [E1 E2]. rewrite <- E1, <- E2. done.
Qed.

Lemma candle_at_overwrite_eq (s : CandleSeries) (idx : nat) (a : Candle) :
  series_wf s -> (idx < series_len s)%nat ->
  candle_at (overwrite s (idx, a)) idx = Some a.
Proof.
  unfold series_wf, series_len. intros (H1 & H2 & H3 & H4 & H5 & H6 & H7) Hlt.
  unfold candle_at, overwrite. simpl.
  rewrite !list_lookup_insert_eq by lia. simpl. by destruct a.
Qed.

Lemma candle_at_overwrite_ne (s : CandleSeries) (ia : nat * Candle) (j : nat) :
  j <> ia.1 -> candle_at (overwrite s ia) j = candle_at s j.
Proof.
  intros Hne. unfold candle_at, overwrite. simpl.
  by rewrite !list_lookup_insert_ne by done.
Qed.

Lemma candle_at_foldl_other (ms : list (nat * Candle)) (s : CandleSeries) (j : nat) :
  j ∉ ms.*1 -> candle_at (foldl overwrite s ms) j = candle_at s j.
Proof.
  revert s. induction ms as [|ia ms IH]; intros s Hj; simpl; [done|].
  simpl in Hj. apply not_elem_of_cons in Hj as [Hne Hj].
  rewrite IH by done. by apply candle_at_overwrite_ne.
Qed.

Lemma candle_at_foldl_flagged (ms : list (nat * Candle)) (s : CandleSeries) idx a :
  series_wf s -> NoDup ms.*1 -> Forall (fun ia => (ia.1 < series_len s)%nat) ms ->
  (idx, a) ∈ ms -> candle_at (foldl overwrite s ms) idx = Some a.
Proof.
  revert s. induction ms as [|ia ms IH]; intros s Hwf Hnd Hin Hel; simpl.
  - by apply elem_of_nil in Hel.
  - simpl in Hnd. apply NoDup_cons in Hnd as [Hfresh Hnd].
    apply Forall_cons in Hin as [Hidx Hin].
    apply elem_of_cons in Hel as [<-|Hel].
    + rewrite candle_at_foldl_other by done. by apply candle_at_overwrite_eq.
    + apply IH; [by apply overwrite_wf | done | | done].
      eapply Forall_impl; [exact Hin|]. simpl. intros x.
      by destruct (overwrite_len s ia) as [-> _].
Qed.

Lemma slot_mismatch_differs (s : CandleSeries) (idx : nat) (a c : Candle) :
  candle_at s idx = Some c -> slot_mismatch s idx a = Some (differs c a).
Proof.
  unfold candle_at, slot_mismatch, differs, or_else, float_of_decimal. intros H.
  destruct (times s !! idx) as [t|]; simpl in H; [|done].
  destruct (opens s !! idx) as [o|]; simpl in H; [|done].
  destruct (highs s !! idx) as [h|]; simpl in H; [|done].
  destruct (lows s !! idx) as [l|]; simpl in H; [|done].
  destruct (closes s !! idx) as [cl|]; simpl in H; [|done].
  destruct (vols s !! idx) as [v|]; simpl in H; [|done].
  destruct (vwaps s !! idx) as [w|]; simpl in H; [|done].
  destruct (tradess s !! idx) as [n|]; simpl in H; [|done].
  inversion H; subst c; simpl.
  repeat (match goal with |- context [_neq ?x ?y] => destruct (_neq x y) end; simpl; try done).
Qed.

Lemma candle_at_is_Some (s : CandleSeries) (idx : nat) :
  series_wf s -> (idx < series_len s)%nat -> is_Some (candle_at s idx).
Proof.
  unfold series_wf, series_len. intros (H1 & H2 & H3 & H4 & H5 & H6 & H7) Hlt.
  unfold candle_at.
  destruct (lookup_lt_is_Some_2 (times s) idx) as [? ->]; [lia|].
  destruct (lookup_lt_is_Some_2 (opens s) idx) as [? ->]; [lia|].
  destruct (lookup_lt_is_Some_2 (highs s) idx) as [? ->]; [lia|].
  destruct (lookup_lt_is_Some_2 (lows s) idx) as [? ->]; [lia|].
  destruct (lookup_lt_is_Some_2 (closes s) idx) as [? ->]; [lia|].
  destruct (lookup_lt_is_Some_2 (vols s) idx) as [? ->]; [lia|].
  destruct (lookup_lt_is_Some_2 (vwaps s) idx) as [? ->]; [lia|].
  destruct (lookup_lt_is_Some_2 (tradess s) idx) as [? ->]; [lia|].
  simpl. eauto.
Qed.

(** the comparison loop flags exactly the pairs that differ *)
Lemma find_mismatches_filter (s : CandleSeries) (pairs : list (nat * Candle)) :
  series_wf s -> Forall (fun ia => (ia.1 < series_len s)%nat) pairs ->
  exists ms, find_mismatches s pairs = Some ms /\ ms `sublist_of` pairs /\
    forall idx a, (idx, a) ∈ ms <->
      (idx, a) ∈ pairs /\ exists c, candle_at s idx = Some c /\ differs c a = true.
Proof.
  intros Hwf. induction 1 as [|[idx a] pairs Hidx _ (ms & Hms & Hsub & Hiff)]; simpl.
  - exists []. split; [done|]. split; [done|]. intros idx a. split.
    + intros Hel. by apply elem_of_nil in Hel.
    + intros [Hel _]. by apply elem_of_nil in Hel.
  - destruct (candle_at_is_Some s idx Hwf Hidx) as [c Hc].
    rewrite (slot_mismatch_differs s idx a c Hc). simpl. rewrite Hms. simpl.
    eexists. split; [reflexivity|]. destruct (differs c a) eqn:Ed.
    + split; [by constructor|]. intros i b. rewrite !elem_of_cons, Hiff. split.
      * intros [E|[? ?]]; [inversion E; subst; eauto | eauto].
      * intros [[E|?] ?]; [by left | right; eauto].
    + split; [by constructor|]. intros i b. rewrite elem_of_cons, Hiff. split.
      * intros [? ?]. eauto.
      * intros [[E|?] (c' & Hc' & Hd)]; [|eauto].
        inversion E; subst. rewrite Hc in Hc'. inversion Hc'; subst. congruence.
Qed.

Lemma last_n_length {A : Type} (n : nat) (l : list A) :
  (n <= length l)%nat -> length (last_n n l) = n.
Proof. intros. unfold last_n. rewrite length_drop. lia. Qed.

End Verifier.

Lemma verify_pairs_facts (s1 : CandleSeries) (fetched : list Candle) :
  (5 <= series_len s1)%nat -> (5 <= length fetched)%nat ->
  (verify_pairs s1 fetched).*1 = seq (series_len s1 - 5) 5 /\
  Forall (fun ia => (series_len s1 - 5 <= ia.1 < series_len s1)%nat) (verify_pairs s1 fetched).
Proof.
  intros Hs Hf. unfold verify_pairs.
  assert ((zip (seq (series_len s1 - 5) 5) fetched).*1 = seq (series_len s1 - 5) 5) as E.
  { apply fst_zip. rewrite length_seq. lia. }
  split; [exact E|]. apply Forall_forall. intros [idx a] Hel. simpl.
  apply (list_elem_of_fmap_2 fst) in Hel. rewrite E in Hel.
  apply elem_of_seq in Hel. simpl in *. lia.
Qed.

(** the verifier never looks at the vwap of the fetched record *)
Lemma differs_ignores_vwap (c a : Candle) (w : Decimal) :
  differs c (with_vwap w a) = differs c a.
Proof. reflexivity. Qed.

(** C8: evaluation at the failing input. The stored minute 6 and the
    re-fetched one differ in vwap by far more than the tolerance, every
    other field being equal; the cycle reports "verify last5: OK" and
    leaves the ring as it was. The comparison covers timestamp, open,
    high, low, close, volume (tolerance) and trades (exact), not vwap. *)
Theorem verify_ignores_vwap :
  candle_at ring6 5 = Some (bar 6 1054 1056 1053 1055) /\
  last (verify_fetched (minute 7) [bar 2 1050 1052 1049 1051; bar 3 1051 1053 1050 1052;
                   bar 4 1052 1054 1051 1053; bar 5 1053 1055 1052 1054;
                   with_vwap (d3 1099) (bar 6 1054 1056 1053 1055);
                   bar 7 1055 1055 1055 1055])
    = Some (with_vwap (d3 1099) (bar 6 1054 1056 1053 1055)) /\
  _neq (vwap (bar 6 1054 1056 1053 1055)) (d3 1099) = true /\
  verify_last5_and_fix vwap_upstream (minute 7) ring6 = (ring6, VerifyOK).
Proof. repeat split; vm_compute; reflexivity. Qed.

(** C10: a cycle that flags mismatches rewrites each flagged slot, which
    lies among the last five, with all eight values of the fetched record
    (timestamp and vwap included), keeps the length of the eight deques and
    the capacity, and leaves every other slot as it was. The timestamps are
    written without any check against the neighbouring slots: the last
    conjunct is a ring that was strictly increasing and is not after the
    cycle. *)
Theorem verify_patch_frame up now_min s1 rows :
  series_wf s1 ->
  up 1 (Some (timestamp_int (now_min - 10 * 60 * 1000000))) = Some rows ->
  (5 <= series_len s1)%nat ->
  (5 <= length (List.filter (closed_valid now_min) rows))%nat ->
  (exists ms,
     find_mismatches s1 (verify_pairs s1 (verify_fetched now_min rows)) = Some ms /\
     (ms <> [] ->
      exists s1', verify_last5_and_fix up now_min s1 = (s1', VerifyFixed ms) /\
        series_wf s1' /\ series_len s1' = series_len s1 /\ capacity s1' = capacity s1 /\
        (forall idx a, (idx, a) ∈ ms ->
           (series_len s1 - 5 <= idx < series_len s1)%nat /\ candle_at s1' idx = Some a) /\
        (forall j, j ∉ ms.*1 -> candle_at s1' j = candle_at s1 j))) /\
  (increasing (times ring6) /\
   ~ increasing (times (fst (verify_last5_and_fix lagging_upstream (minute 7) ring6)))).
Proof.
  intros Hwf Hup Hs Hf. split.
  - assert (length (verify_fetched now_min rows) = 5%nat) as Hlen
      by (by apply last_n_length).
    destruct (verify_pairs_facts s1 (verify_fetched now_min rows)) as [Hfst Hrange];
      [done | lia |].
    assert (Forall (fun ia => (ia.1 < series_len s1)%nat)
              (verify_pairs s1 (verify_fetched now_min rows))) as Hin.
    { eapply Forall_impl; [exact Hrange|]. simpl. lia. }
    destruct (find_mismatches_filter s1 _ Hwf Hin) as (ms & Hms & Hsub & Hiff).
    exists ms. split; [exact Hms|]. intros Hne.
    assert (Forall (fun ia => (ia.1 < series_len s1)%nat) ms) as Hin'.
    { apply Forall_forall. intros ia Hia. eapply Forall_forall in Hin; [exact Hin|].
      by eapply elem_of_sublist. }
    assert (NoDup ms.*1) as Hnd.
    { eapply sublist_NoDup; [|by apply (fmap_sublist fst)].
      rewrite Hfst. apply NoDup_seq. }
    exists (foldl overwrite s1 ms). split.
    + unfold verify_last5_and_fix. rewrite Hup.
      destruct (series_len s1 <? 5)%nat eqn:E1; [apply Nat.ltb_lt in E1; lia|].
      destruct (length (verify_fetched now_min rows) <? 5)%nat eqn:E2;
        [apply Nat.ltb_lt in E2; lia|].
      simpl. rewrite Hms. rewrite patch_all_wf by done.
      by destruct ms.
    + destruct (foldl_overwrite_wf ms s1 Hwf) as (H1 & H2 & H3).
      split; [exact H1|]. split; [exact H2|]. split; [exact H3|]. split.
      * intros idx a Hel. split; [|by apply candle_at_foldl_flagged].
        eapply Forall_forall in Hrange; [|by eapply elem_of_sublist]. exact Hrange.
      * intros j Hj. by apply candle_at_foldl_other.
  - split.
    + vm_compute. repeat constructor.
    + intros H. vm_compute in H. apply StronglySorted_cons in H as [H _].
      apply Forall_cons in H as [H _]. vm_compute in H. congruence.
Qed.

Lemma ring6_wf : series_wf ring6.
Proof. unfold series_wf. vm_compute. repeat split. Defined.

Lemma verify_patch_frame_witness :
  exists ms s1',
    ms = [(3%nat, bar 4 1052 1057 1051 1053)] /\
    verify_last5_and_fix corrected_upstream (minute 7) ring6 = (s1', VerifyFixed ms) /\
    candle_at s1' 3 = Some (bar 4 1052 1057 1051 1053) /\
    candle_at s1' 4 = candle_at ring6 4.
Proof.
  destruct (verify_patch_frame corrected_upstream (minute 7) ring6
    [bar 2 1050 1052 1049 1051; bar 3 1051 1053 1050 1052;
     bar 4 1052 1057 1051 1053; bar 5 1053 1055 1052 1054;
     bar 6 1054 1056 1053 1055; bar 7 1055 1055 1055 1055]
    ring6_wf eq_refl) as [(ms & Hms & Hfix) _].
  - vm_compute. lia.
  - vm_compute. lia.
  - vm_compute in Hms. inversion Hms as [E]. clear Hms.
    destruct Hfix as (s1' & Hv & _ & _ & _ & Hflag & Hother); [by rewrite <- E|].
    exists ms, s1'. split; [by rewrite <- E|]. split; [exact Hv|]. split.
    + apply Hflag. rewrite <- E. by apply list_elem_of_singleton.
    + apply Hother. rewrite <- E. simpl. intros Hel.
      apply list_elem_of_singleton in Hel. lia.
Defined.

(** ** What reaches the store *)

Lemma accept_loop_appends (safe : list Candle) (s : CandleSeries) (lt : option datetime) :
  fst (foldl accept_step (s, lt) safe) = foldl series_append s (accepted lt safe).
Proof.
  revert s lt. induction safe as [|c safe IH]; intros s lt; simpl; [done|].
  unfold accept_step at 2. simpl. destruct (accepts lt c); simpl; apply IH.
Qed.

Lemma accepted_Forall (P : Candle -> Prop) (safe : list Candle) (lt : option datetime) :
  Forall P safe -> Forall P (accepted lt safe).
Proof.
  intros H. revert lt. induction H as [|c safe Hc _ IH]; intros lt; simpl; [done|].
  destruct (accepts lt c); [constructor|]; auto.
Qed.

(** the periodic poll appends closed, valid records only *)
Lemma poll_tf_appends_closed_valid up now_min f tf minutes f' :
  poll_tf up now_min f (tf, minutes) = Some f' ->
  exists s appended,
    store f !! tf = Some s /\
    store f' = <[tf := foldl series_append s appended]> (store f) /\
    Forall (fun c => closed_valid now_min c = true) appended.
Proof.
  unfold poll_tf. cbv zeta. simpl. intros H.
  destruct (up minutes (watermark f tf)) as [rows|]; simpl in H; [|done].
  destruct (store f !! tf) as [s|] eqn:Es; simpl in H; [|done].
  exists s, (accepted (series_last_time s) (List.filter (closed_valid now_min) rows)).
  split; [done|]. split.
  - rewrite <- accept_loop_appends. by destruct (snd _) in H; inversion H.
  - apply accepted_Forall, Forall_forall. intros c Hc.
    by apply list_elem_of_In, filter_In in Hc as [_ Hc].
Qed.

(** C3: evaluation at the failing input. Started within minute 0 with the
    reference time at minute 0, the priming step of [main] stores the
    record of minute -1, which has no trades and no volume, and the record
    of minute 0, which is the minute in progress: neither passes the
    closed/valid filter that [poll_once] applies. *)
Theorem startup_stores_provisional :
  exists f s,
    main_startup startup_upstream startup_upstream (minute 0) (minute 0) = Some f /\
    store f !! "1m"%string = Some s /\
    candle_at s 1 = Some (idle_bar (-1) 1050) /\
    candle_at s 2 = Some (bar 0 1050 1051 1050 1051) /\
    (forall now_min, closed_valid now_min (idle_bar (-1) 1050) = false) /\
    closed_valid (minute 0) (bar 0 1050 1051 1050 1051) = false.
Proof.
  eexists. eexists. split; [vm_compute; reflexivity|].
  split; [vm_compute; reflexivity|].
  repeat split; try (vm_compute; reflexivity).
  intros now_min. unfold closed_valid. simpl. by rewrite andb_false_r.
Qed.

(** ** The breakout strategy *)

Section Strategy.

Lemma replay_snoc (rows : list JournalRow) (r : JournalRow) (cur : option Position) :
  replay cur (rows ++ [r]) = replay cur rows ≫= fun cur' => replay cur' [r].
Proof.
  revert cur. induction rows as [|r' rows IH]; intros cur; simpl.
  - by destruct r, cur.
  - destruct r' as [p n|p n], cur as [q|]; simpl; try done; try apply IH.
    destruct (decide (reopened p = q)); [apply IH | done].
Qed.

Lemma entries_snoc (rows : list JournalRow) (r : JournalRow) :
  entries (rows ++ [r]) = (entries rows + (if is_entry r then 1 else 0))%nat.
Proof.
  unfold entries. rewrite List.filter_app, length_app. simpl. by destruct (is_entry r).
Qed.

Lemma _exit_active (o : Outcome) (price : Decimal) (ts : datetime) st p :
  active st = Some p ->
  _exit o price ts st =
    with_active st None (journal st ++ [LogExit (closed p o price ts) "exit"]).
Proof. intros H. unfold _exit. by rewrite H. Qed.

Lemma _exit_consistent o price ts st : consistent st -> consistent (_exit o price ts st).
Proof.
  intros H. unfold _exit. destruct (active st) as [p|] eqn:Ea; [|exact H].
  destruct H as [Hr Hp]. rewrite Ea in Hr.
  split; simpl; [|done]. rewrite replay_snoc, Hr. simpl.
  specialize (Hp p Ea). unfold reopened in *. simpl.
  by rewrite decide_True.
Qed.

Lemma _enter_consistent sd price ts note st :
  consistent st -> consistent (_enter sd price ts note st).
Proof.
  intros H. unfold _enter. destruct (active st) as [p|] eqn:Ea; [exact H|].
  destruct (max_positions st <? 1); [exact H|].
  destruct H as [Hr Hp]. rewrite Ea in Hr.
  split; simpl.
  - by rewrite replay_snoc, Hr.
  - intros p Hp'. by inversion Hp'.
Qed.

Lemma _manage_position_cases tie c st :
  _manage_position tie c st = st \/
  exists p o price, active st = Some p /\
    _manage_position tie c st = _exit o price (time c) st.
Proof.
  unfold _manage_position. destruct (active st) as [p|] eqn:Ea; [|by left].
  destruct tie, (side p);
    repeat (match goal with |- context [if ?b then _ else _] => destruct b end);
    eauto 10.
Qed.

Lemma _manage_position_consistent tie c st :
  consistent st -> consistent (_manage_position tie c st).
Proof.
  intros H. destruct (_manage_position_cases tie c st) as [->|(p & o & price & _ & ->)];
    [done | by apply _exit_consistent].
Qed.

Lemma on_live_price_consistent price ts st :
  consistent st -> consistent (on_live_price price ts st).
Proof.
  intros H. unfold on_live_price. destruct (active st) as [p|]; [|done].
  destruct (side p);
    repeat (match goal with |- context [if ?b then _ else _] => destruct b end);
    try done; by apply _exit_consistent.
Qed.

Lemma on_new_close_consistent tie c st :
  consistent st -> consistent (on_new_close tie c st).
Proof.
  intros H. unfold on_new_close.
  destruct (time c <? ref_utc st); [done|].
  destruct (blue_high st) as [bh|], (blue_low st) as [bl|]; try done.
  destruct (active st) as [p|]; [by apply _manage_position_consistent|].
  repeat (match goal with |- context [if ?b then _ else _] => destruct b end);
    try done; by apply _enter_consistent.
Qed.

Lemma run_consistent tie es st : consistent st -> consistent (run tie es st).
Proof.
  revert st. induction es as [|e es IH]; intros st H; simpl; [done|].
  apply IH. destruct e; simpl.
  - by apply on_new_close_consistent.
  - by apply on_live_price_consistent.
  - done.
Qed.

(** while a position is open, a closed candle is only checked against its
    stop and target *)
Lemma no_reentry tie c st p :
  active st = Some p ->
  (on_new_close tie c st = st \/ on_new_close tie c st = _manage_position tie c st) /\
  (active (on_new_close tie c st) = Some p \/ active (on_new_close tie c st) = None) /\
  entries (journal (on_new_close tie c st)) = entries (journal st).
Proof.
  intros Ha.
  assert (forall st', st' = st \/ st' = _manage_position tie c st ->
            (active st' = Some p \/ active st' = None) /\
            entries (journal st') = entries (journal st)) as Hm.
  { intros st' [->| ->]; [by split; [left|]|].
    destruct (_manage_position_cases tie c st) as [->|(q & o & price & Hq & ->)];
      [by split; [left|]|].
    rewrite (_exit_active _ _ _ _ _ Hq). simpl. split; [by right|].
    rewrite entries_snoc. simpl. lia. }
  assert (on_new_close tie c st = st \/ on_new_close tie c st = _manage_position tie c st) as H.
  { unfold on_new_close. destruct (time c <? ref_utc st); [by left|].
    destruct (blue_high st), (blue_low st); try (by left). rewrite Ha. by right. }
  split; [exact H | by apply Hm].
Qed.

End Strategy.

(** C1: after any sequence of closed candles, live prices and level
    settings delivered to a fresh engine, the journal reads back as a
    strict alternation of entries and exits whose open position is the
    engine's [active] one: no entry is ever recorded while a position is
    open. While a position is open, [on_new_close] with any candle, one
    that satisfies the entry rule included, either does nothing or is the
    stop/target check of [_manage_position]; the position stays the same one
    or is closed, and no entry is added to the journal. *)
Theorem at_most_one_position (k : Settings) (ref : datetime) (tie : bool) (es : list Event) :
  replay None (journal (run tie es (BreakoutStrategy_init k ref)))
    = Some (active (run tie es (BreakoutStrategy_init k ref))) /\
  forall p c, active (run tie es (BreakoutStrategy_init k ref)) = Some p ->
    (on_new_close tie c (run tie es (BreakoutStrategy_init k ref))
       = run tie es (BreakoutStrategy_init k ref) \/
     on_new_close tie c (run tie es (BreakoutStrategy_init k ref))
       = _manage_position tie c (run tie es (BreakoutStrategy_init k ref))) /\
    (active (on_new_close tie c (run tie es (BreakoutStrategy_init k ref))) = Some p \/
     active (on_new_close tie c (run tie es (BreakoutStrategy_init k ref))) = None) /\
    entries (journal (on_new_close tie c (run tie es (BreakoutStrategy_init k ref))))
      = entries (journal (run tie es (BreakoutStrategy_init k ref))).
Proof.
  split.
  - apply run_consistent. split; [done | intros p Hp; inversion Hp].
  - intros p c Ha. by apply no_reentry.
Qed.

Lemma at_most_one_position_witness :
  active long_at_1060 = Some position_1060 /\
  Dec.gtb (open (bar 2 1061 1061 1060 1061)) (d3 1050) = true /\
  active (on_new_close true (bar 2 1061 1061 1060 1061) long_at_1060) = Some position_1060 /\
  entries (journal (on_new_close true (bar 2 1061 1061 1060 1061) long_at_1060)) = 1%nat.
Proof.
  pose proof (proj2 (at_most_one_position default_settings (minute 0) true
    [SetBlue (d3 1050) (d3 1040); NewClose (bar 1 1060 1061 1059 1061)])
    position_1060 (bar 2 1061 1061 1060 1061) eq_refl) as (_ & _ & He).
  split; [reflexivity|]. split; [reflexivity|]. split; [reflexivity|].
  exact He.
Defined.

(** ** Entries and exits *)

Lemma _enter_idle sd price ts note st :
  active st = None -> 1 <= max_positions st ->
  _enter sd price ts note st =
    with_active st (Some (entered sd price ts st))
      (journal st ++ [LogEntry (entered sd price ts st) ("entered " +:+ note)]).
Proof.
  intros Ha Hm. unfold _enter. rewrite Ha.
  destruct (max_positions st <? 1) eqn:E; [apply Z.ltb_lt in E; lia|].
  by destruct sd.
Qed.

(** what [_enter] and [_exit] leave, field by field *)
Lemma _enter_fields sd price ts note st :
  active st = None -> 1 <= max_positions st ->
  _enter sd price ts note st =
    mkStrategy (ref_utc st) (blue_high st) (blue_low st)
      (Some (mkPosition sd price
               (match sd with
                | long => Dec.sub price (risk_step st)
                | short => Dec.add price (risk_step st)
                end)
               (match sd with
                | long => Dec.add price (Dec.mul (rr st) (risk_step st))
                | short => Dec.sub price (Dec.mul (rr st) (risk_step st))
                end)
               (trade_capital st) ts None None None))
      (max_positions st) (risk_step st) (rr st) (trade_capital st)
      (journal st ++
       [LogEntry (mkPosition sd price
                    (match sd with
                     | long => Dec.sub price (risk_step st)
                     | short => Dec.add price (risk_step st)
                     end)
                    (match sd with
                     | long => Dec.add price (Dec.mul (rr st) (risk_step st))
                     | short => Dec.sub price (Dec.mul (rr st) (risk_step st))
                     end)
                    (trade_capital st) ts None None None)
          ("entered " +:+ note)]).
Proof. intros Ha Hm. by rewrite _enter_idle. Qed.

Lemma _exit_fields (o : Outcome) (price : Decimal) (ts : datetime) st p :
  active st = Some p ->
  _exit o price ts st =
    mkStrategy (ref_utc st) (blue_high st) (blue_low st) None
      (max_positions st) (risk_step st) (rr st) (trade_capital st)
      (journal st ++
       [LogExit (mkPosition (side p) (entry p) (stop p) (target p) (capital p)
                   (opened_at p) (Some price) (Some ts) (Some o)) "exit"]).
Proof. intros H. unfold _exit. by rewrite H. Qed.



(** C7: for an open long position with stop 1.059 and target 1.062, a
    closed record with low 1.058 and high 1.063 closes it once: the engine
    is idle afterwards and the journal has one more row, the exit of that
    position at the record's time, with outcome loss and exit price 1.059
    when the stop has priority, and outcome win and exit price 1.062 when
    it has not. Whatever the record, [_manage_position] either changes
    nothing or journals exactly one exit, a win at the target or a loss at
    the stop, and leaves the engine idle. *)
Theorem exit_tie_break (tie : bool) (c : Candle) (st : BreakoutStrategy) (p : Position) :
  active st = Some p ->
  (side p = long -> stop p = d3 1059 -> target p = d3 1062 ->
   low c = d3 1058 -> high c = d3 1063 ->
   active (_manage_position tie c st) = None /\
   journal (_manage_position tie c st) =
     journal st ++
       [LogExit (mkPosition long (entry p) (d3 1059) (d3 1062) (capital p) (opened_at p)
                   (Some (if tie then d3 1059 else d3 1062))
                   (Some (time c))
                   (Some (if tie then loss else win))) "exit"]) /\
  ((active (_manage_position tie c st) = Some p /\
    journal (_manage_position tie c st) = journal st) \/
   (exists q,
      active (_manage_position tie c st) = None /\
      journal (_manage_position tie c st) = journal st ++ [LogExit q "exit"] /\
      side q = side p /\ entry q = entry p /\ stop q = stop p /\ target q = target p /\
      capital q = capital p /\ opened_at q = opened_at p /\
      closed_at q = Some (time c) /\
      ((outcome q = Some win /\ exit_price q = Some (target p)) \/
       (outcome q = Some loss /\ exit_price q = Some (stop p))))).
Proof.
  intros Ha. split.
  - intros Hs Hst Ht Hl Hh. unfold _manage_position. rewrite Ha, Hs, Hst, Ht, Hl, Hh.
    destruct tie; simpl; rewrite (_exit_fields _ _ _ _ _ Ha); simpl;
      rewrite Hs, Hst, Ht; by split.
  - unfold _manage_position. rewrite Ha.
    destruct tie; destruct (side p) eqn:Es;
      repeat (match goal with |- context [if ?b then _ else _] => destruct b end);
      try (left; by split);
      right; rewrite (_exit_fields _ _ _ _ _ Ha); simpl; eexists;
      (split; [reflexivity|]); (split; [reflexivity|]); simpl; rewrite ?Es;
      repeat (split; [reflexivity|]);
      first [left; split; reflexivity | right; split; reflexivity].
Qed.

Lemma exit_tie_break_witness :
  active long_at_1060 = Some position_1060 /\
  journal (_manage_position true (bar 2 1061 1063 1058 1060) long_at_1060)
    = [LogEntry position_1060 "entered basis=OPEN";
       LogExit (mkPosition long (d3 1060) (d3 1059) (d3 1062) (Dec.mk 100 0) (minute 1)
                  (Some (d3 1059)) (Some (minute 2)) (Some loss)) "exit"] /\
  journal (_manage_position false (bar 2 1061 1063 1058 1060) long_at_1060)
    = [LogEntry position_1060 "entered basis=OPEN";
       LogExit (mkPosition long (d3 1060) (d3 1059) (d3 1062) (Dec.mk 100 0) (minute 1)
                  (Some (d3 1062)) (Some (minute 2)) (Some win)) "exit"].
Proof.
  pose proof (proj1 (exit_tie_break true (bar 2 1061 1063 1058 1060) long_at_1060
    position_1060 eq_refl) eq_refl eq_refl eq_refl eq_refl eq_refl) as [_ H1].
  pose proof (proj1 (exit_tie_break false (bar 2 1061 1063 1058 1060) long_at_1060
    position_1060 eq_refl) eq_refl eq_refl eq_refl eq_refl eq_refl) as [_ H2].
  split; [reflexivity|]. split; [exact H1 | exact H2].
Defined.

(** C5, the claim as stated fails: a trade at 1.063 against a target of
    1.062 closes the position at 1.062, not at the trade's price, and the
    close of the same minute, opening above the upper level, then opens a
    new position. *)
Lemma live_exit_not_at_tick_price :
  active long_at_1060 = Some position_1060 /\
  Dec.gtb (d3 1063) (target position_1060) = true /\
  journal (on_live_price (d3 1063) tick_ts long_at_1060)
    = [LogEntry position_1060 "entered basis=OPEN";
       LogExit (mkPosition long (d3 1060) (d3 1059) (d3 1062) (Dec.mk 100 0) (minute 1)
                  (Some (d3 1062)) (Some tick_ts) (Some win)) "exit"] /\
  (forall q, In (LogExit q "exit") (journal (on_live_price (d3 1063) tick_ts long_at_1060)) ->
     exit_price q <> Some (d3 1063)) /\
  minute 2 <= tick_ts < minute 3 /\
  on_new_close true bar_after_tick (on_live_price (d3 1063) tick_ts long_at_1060)
    <> on_live_price (d3 1063) tick_ts long_at_1060 /\
  active (on_new_close true bar_after_tick (on_live_price (d3 1063) tick_ts long_at_1060))
    = Some (mkPosition long (d3 1061) (d3 1060) (d3 1063) (Dec.mk 100 0) (minute 2)
              None None None).
Proof.
  assert (journal (on_live_price (d3 1063) tick_ts long_at_1060)
    = [LogEntry position_1060 "entered basis=OPEN";
       LogExit (mkPosition long (d3 1060) (d3 1059) (d3 1062) (Dec.mk 100 0) (minute 1)
                  (Some (d3 1062)) (Some tick_ts) (Some win)) "exit"]) as E
    by reflexivity.
  split; [reflexivity|]. split; [reflexivity|]. split; [exact E|]. split.
  { intros q H. rewrite E in H. destruct H as [H|[H|[]]]; [discriminate|].
    injection H as <-. simpl. discriminate. }
  repeat split; vm_compute; congruence.
Qed.

(** C5, amended: a live price that reaches the target of the open
    position closes it as a win: the engine is idle, its levels and
    settings are as before, and the journal has one more row, the exit of
    that position with outcome win, exit price the position's target (not
    the tick's price) and closing time the tick's timestamp. The close of
    the enclosing record then finds nothing to manage and records no exit.
    It leaves the state as it is when the record is before the reference
    time, a level is not set, no position is allowed or the record
    triggers no entry; and when the record is at or after the reference
    time, both levels are set, a position is allowed and the record
    triggers an entry, it opens one position, at the record's time with the
    configured capital, and journals its entry: long on the open when the
    open is above the upper level, else long on the close when the close is
    above it, else short on the open when the open is below the lower
    level, else short on the close; the stop one risk step against the
    position and the target rr risk steps in its favour, as long as these
    results fit the 28 digits of the decimal context. *)
Theorem live_target_exit (price : Decimal) (ts : datetime) (st : BreakoutStrategy)
    (p : Position) :
  active st = Some p -> reaches_target price p = true ->
  on_live_price price ts st =
    mkStrategy (ref_utc st) (blue_high st) (blue_low st) None
      (max_positions st) (risk_step st) (rr st) (trade_capital st)
      (journal st ++
       [LogExit (mkPosition (side p) (entry p) (stop p) (target p) (capital p)
                   (opened_at p) (Some (target p)) (Some ts) (Some win)) "exit"]) /\
  forall tie c,
    _manage_position tie c (on_live_price price ts st) = on_live_price price ts st /\
    (time c < ref_utc st \/ blue_high st = None \/ blue_low st = None \/
     max_positions st <= 0 \/
     (exists bh bl, blue_high st = Some bh /\ blue_low st = Some bl /\
                    no_trigger c bh bl = true) ->
     on_new_close tie c (on_live_price price ts st) = on_live_price price ts st) /\
    (forall bh bl,
       ref_utc st <= time c -> blue_high st = Some bh -> blue_low st = Some bl ->
       1 <= max_positions st -> no_trigger c bh bl = false ->
       exists sd pr basis sp tg,
         (sd, pr, basis) =
           (if Dec.gtb (open c) bh then (long, open c, "OPEN")
            else if Dec.gtb (close c) bh then (long, close c, "CLOSE")
            else if Dec.ltb (open c) bl then (short, open c, "OPEN")
            else (short, close c, "CLOSE")) /\
         active (on_new_close tie c (on_live_price price ts st)) =
           Some (mkPosition sd pr sp tg (trade_capital st) (time c) None None None) /\
         journal (on_new_close tie c (on_live_price price ts st)) =
           journal st ++
             [LogExit (mkPosition (side p) (entry p) (stop p) (target p) (capital p)
                         (opened_at p) (Some (target p)) (Some ts) (Some win)) "exit";
              LogEntry (mkPosition sd pr sp tg (trade_capital st) (time c)
                          None None None)
                ("entered basis=" +:+ basis)] /\
         (fits_context (Dec.mul (rr st) (risk_step st)) ->
          fits_context (Dec.sub pr (risk_step st)) ->
          fits_context (Dec.add pr (risk_step st)) ->
          fits_context (Dec.sub pr (Dec.mul (rr st) (risk_step st))) ->
          fits_context (Dec.add pr (Dec.mul (rr st) (risk_step st))) ->
          match sd with
          | long => sp = Dec.sub pr (risk_step st) /\
                    tg = Dec.add pr (Dec.mul (rr st) (risk_step st))
          | short => sp = Dec.add pr (risk_step st) /\
                     tg = Dec.sub pr (Dec.mul (rr st) (risk_step st))
          end)).
Proof.
  intros Ha Hr.
  assert (on_live_price price ts st =
    mkStrategy (ref_utc st) (blue_high st) (blue_low st) None
      (max_positions st) (risk_step st) (rr st) (trade_capital st)
      (journal st ++
       [LogExit (mkPosition (side p) (entry p) (stop p) (target p) (capital p)
                   (opened_at p) (Some (target p)) (Some ts) (Some win)) "exit"])) as E.
  { unfold on_live_price, reaches_target in *. rewrite Ha.
    destruct (side p) eqn:Es; rewrite Hr, (_exit_fields _ _ _ _ _ Ha), Es; reflexivity. }
  split; [exact E|]. intros tie c. rewrite E.
  set (st' := mkStrategy _ _ _ _ _ _ _ _ _).
  split; [reflexivity|]. split.
  - intros H. unfold on_new_close. simpl.
    destruct (time c <? ref_utc st) eqn:Et; [done|]. apply Z.ltb_ge in Et.
    destruct (blue_high st) as [bh|] eqn:Eh; [|done].
    destruct (blue_low st) as [bl|] eqn:El; [|done].
    destruct (max_positions st <=? 0) eqn:Em; [done|]. apply Z.leb_gt in Em.
    destruct H as [H|[H|[H|[H|(bh' & bl' & Hh & Hl & Hn)]]]]; try lia; try done.
    injection Hh as <-. injection Hl as <-. unfold no_trigger in Hn.
    destruct (Dec.gtb (open c) bh), (Dec.gtb (close c) bh),
      (Dec.ltb (open c) bl), (Dec.ltb (close c) bl); done.
  - intros bh bl Ht Hh Hl Hm Hn.
    assert (active st' = None) as Ha' by reflexivity.
    assert (1 <= max_positions st') as Hm' by exact Hm.
    unfold on_new_close. simpl. rewrite Hh, Hl.
    destruct (time c <? ref_utc st) eqn:Et; [apply Z.ltb_lt in Et; lia|].
    destruct (max_positions st <=? 0) eqn:Em; [apply Z.leb_le in Em; lia|].
    unfold no_trigger in Hn.
    destruct (Dec.gtb (open c) bh), (Dec.gtb (close c) bh),
      (Dec.ltb (open c) bl), (Dec.ltb (close c) bl); try done; simpl;
      rewrite (_enter_fields _ _ _ _ _ Ha' Hm'); simpl;
      eexists _, _, _, _, _; (split; [reflexivity|]); (split; [reflexivity|]);
      (split; [by rewrite <- app_assoc|]); by intros _ _ _ _ _.
Qed.

Lemma live_target_exit_witness :
  active long_at_1060 = Some position_1060 /\
  reaches_target (d3 1063) position_1060 = true /\
  active (on_live_price (d3 1063) tick_ts long_at_1060) = None /\
  journal (on_live_price (d3 1063) tick_ts long_at_1060) =
    [LogEntry position_1060 "entered basis=OPEN";
     LogExit (mkPosition long (d3 1060) (d3 1059) (d3 1062) (Dec.mk 100 0) (minute 1)
                (Some (d3 1062)) (Some tick_ts) (Some win)) "exit"].
Proof.
  split; [reflexivity|]. split; [reflexivity|].
  pose proof (proj1 (live_target_exit (d3 1063) tick_ts long_at_1060 position_1060
                       eq_refl eq_refl)) as H.
  split; [exact (f_equal active H) | exact (f_equal journal H)].
Defined.


(* ===================================================================== *)
(** * Further properties of the code *)
(* ===================================================================== *)

(** ** Decimal order *)

Section DecOrder.

Lemma pow10_pos (k : Z) : 0 <= k -> 0 < 10 ^ k.
Proof. intros. by apply Z.pow_pos_nonneg. Qed.

Lemma scaled_shift (E e : Z) (d : Decimal) :
  E <= e -> e <= Dec.dexp d -> Dec.scaled E d = Dec.scaled e d * 10 ^ (e - E).
Proof.
  intros H1 H2. unfold Dec.scaled.
  replace (Dec.dexp d - E) with ((Dec.dexp d - e) + (e - E)) by lia.
  rewrite Z.pow_add_r by lia. ring.
Qed.

Lemma cmp_common (E : Z) (a b : Decimal) :
  E <= Dec.dexp a -> E <= Dec.dexp b ->
  Dec.cmp a b = (Dec.scaled E a ?= Dec.scaled E b).
Proof.
  intros Ha Hb. unfold Dec.cmp. cbv zeta.
  rewrite (scaled_shift E (Z.min (Dec.dexp a) (Dec.dexp b)) a) by lia.
  rewrite (scaled_shift E (Z.min (Dec.dexp a) (Dec.dexp b)) b) by lia.
  apply Zmult_compare_compat_r. apply Z.lt_gt, pow10_pos. lia.
Qed.

Lemma leb_common (E : Z) (a b : Decimal) :
  E <= Dec.dexp a -> E <= Dec.dexp b ->
  Dec.leb a b = true <-> Dec.scaled E a <= Dec.scaled E b.
Proof.
  intros Ha Hb. unfold Dec.leb. rewrite (cmp_common E) by done.
  unfold Z.le. destruct (Dec.scaled E a ?= Dec.scaled E b); split; congruence.
Qed.

Lemma ltb_common (E : Z) (a b : Decimal) :
  E <= Dec.dexp a -> E <= Dec.dexp b ->
  Dec.ltb a b = true <-> Dec.scaled E a < Dec.scaled E b.
Proof.
  intros Ha Hb. unfold Dec.ltb. rewrite (cmp_common E) by done.
  unfold Z.lt. destruct (Dec.scaled E a ?= Dec.scaled E b); split; congruence.
Qed.

Lemma leb_negb_ltb (a b : Decimal) : Dec.leb a b = negb (Dec.ltb b a).
Proof.
  unfold Dec.leb, Dec.ltb, Dec.cmp. cbv zeta. rewrite (Z.min_comm (Dec.dexp b)).
  rewrite (Z.compare_antisym (Dec.scaled _ a)). by destruct (Dec.scaled _ a ?= _).
Qed.

Lemma dec_le_refl (a : Decimal) : dec_le a a.
Proof. apply (leb_common (Dec.dexp a)); lia. Qed.

Lemma dec_le_trans (a b c : Decimal) : dec_le a b -> dec_le b c -> dec_le a c.
Proof.
  unfold dec_le. pose (E := Z.min (Dec.dexp a) (Z.min (Dec.dexp b) (Dec.dexp c))).
  rewrite !(leb_common E) by lia. lia.
Qed.

Lemma dec_le_total (a b : Decimal) : dec_le a b \/ dec_le b a.
Proof.
  unfold dec_le. pose (E := Z.min (Dec.dexp a) (Dec.dexp b)).
  rewrite !(leb_common E) by lia. lia.
Qed.

Lemma dec_lt_le (a b : Decimal) : dec_lt a b -> dec_le a b.
Proof.
  unfold dec_lt, dec_le. pose (E := Z.min (Dec.dexp a) (Dec.dexp b)).
  rewrite (leb_common E), (ltb_common E) by lia. lia.
Qed.

Lemma dec_lt_le_trans (a b c : Decimal) : dec_lt a b -> dec_le b c -> dec_lt a c.
Proof.
  unfold dec_lt, dec_le. pose (E := Z.min (Dec.dexp a) (Z.min (Dec.dexp b) (Dec.dexp c))).
  rewrite (leb_common E), !(ltb_common E) by lia. lia.
Qed.

Lemma dec_le_lt_trans (a b c : Decimal) : dec_le a b -> dec_lt b c -> dec_lt a c.
Proof.
  unfold dec_lt, dec_le. pose (E := Z.min (Dec.dexp a) (Z.min (Dec.dexp b) (Dec.dexp c))).
  rewrite (leb_common E), !(ltb_common E) by lia. lia.
Qed.

Lemma _neq_refl (x : Decimal) : _neq x x = false.
Proof.
  unfold _neq, Dec.gtb, Dec.ltb, Dec.abs, Dec.sub. cbv zeta. simpl.
  rewrite Z.sub_diag. simpl.
  rewrite (cmp_common (Z.min (-9) (Z.min (Dec.dexp x) (Dec.dexp x)))); simpl; try lia.
  unfold Dec.scaled. simpl.
  change (Z.abs 0) with 0. rewrite Z.mul_0_l, Z.mul_1_l.
  match goal with
  | |- context [?a ?= 0] =>
      assert (0 < a) as Hp by (apply pow10_pos; lia); destruct (Z.compare_spec a 0)
  end; [done | lia | done].
Qed.

End DecOrder.


(** ** The ring as a list of candles *)

Section Ring.

Lemma candle_eta (c : Candle) :
  mkCandle (time c) (open c) (high c) (low c) (close c) (volume c) (vwap c) (trades c) = c.
Proof. by destruct c. Qed.

Lemma candle_at_series_of (cap : nat) (cs : list Candle) (i : nat) :
  candle_at (series_of cap cs) i = cs !! i.
Proof.
  unfold candle_at, series_of. simpl. rewrite !list_lookup_fmap.
  destruct (cs !! i) as [c|]; simpl; [by rewrite candle_eta | done].
Qed.

Lemma series_len_of (cap : nat) (cs : list Candle) :
  series_len (series_of cap cs) = length cs.
Proof. unfold series_len, series_of. simpl. apply length_fmap. Qed.

Lemma omap_lookup_seq {A : Type} (l : list A) :
  omap (fun i => l !! i) (seq 0 (length l)) = l.
Proof.
  induction l as [|x l IH]; [done|]. simpl. f_equal.
  rewrite <- fmap_S_seq. rewrite <- IH at 2.
  apply list_omap_ext, Forall2_fmap_l, Forall_Forall2_diag, Forall_forall. done.
Qed.

Lemma series_candles_of (cap : nat) (cs : list Candle) :
  series_candles (series_of cap cs) = cs.
Proof.
  unfold series_candles. rewrite series_len_of.
  transitivity (omap (fun i => cs !! i) (seq 0 (length cs))); [|apply omap_lookup_seq].
  apply list_omap_ext, Forall_Forall2_diag, Forall_forall. intros i _.
  apply candle_at_series_of.
Qed.

Lemma series_wf_of (cap : nat) (cs : list Candle) : series_wf (series_of cap cs).
Proof. unfold series_wf, series_of. simpl. by rewrite !length_fmap. Qed.

Lemma series_repr_lists (cap : nat) ts os hs ls cs vs ws ns :
  series_wf (mkSeries cap ts os hs ls cs vs ws ns) ->
  exists l, mkSeries cap ts os hs ls cs vs ws ns = series_of cap l.
Proof.
  unfold series_wf. simpl. revert os hs ls cs vs ws ns.
  induction ts as [|t ts IH]; intros os hs ls cs vs ws ns (H1 & H2 & H3 & H4 & H5 & H6 & H7).
  - destruct os, hs, ls, cs, vs, ws, ns; try done. by exists [].
  - destruct os as [|o os], hs as [|h hs], ls as [|l ls], cs as [|c cs],
      vs as [|v vs], ws as [|w ws], ns as [|n ns]; try done.
    simpl in *. destruct (IH os hs ls cs vs ws ns) as [l' Hl']; [repeat split; lia|].
    exists (mkCandle t o h l c v w n :: l'). unfold series_of in *. simpl.
    by inversion Hl'.
Qed.

(** a ring whose eight deques have one length is the ring of its candles *)
Lemma series_repr (s : CandleSeries) :
  series_wf s -> s = series_of (capacity s) (series_candles s).
Proof.
  intros Hwf. destruct s as [cap ts os hs ls cs vs ws ns].
  destruct (series_repr_lists _ _ _ _ _ _ _ _ _ Hwf) as [l Hl].
  rewrite Hl. by rewrite series_candles_of.
Qed.

Lemma series_append_of (cap : nat) (cs : list Candle) (c : Candle) :
  series_append (series_of cap cs) c = series_of cap (deque_append cap cs c).
Proof.
  unfold series_append, series_of, deque_append. simpl.
  rewrite !fmap_drop, !fmap_app, !length_app, !length_fmap. done.
Qed.

Lemma deque_append_last_n {A : Type} (cap : nat) (m : list A) (x : A) :
  deque_append cap (last_n cap m) x = last_n cap (m ++ [x]).
Proof.
  unfold deque_append, last_n. rewrite !length_app, length_drop. simpl.
  destruct (decide (length m < cap)%nat) as [Hlt|Hge].
  - replace (length m - cap)%nat with 0%nat by lia. simpl.
    by replace (length m - 0 + 1 - cap)%nat with (length m + 1 - cap)%nat by lia.
  - replace (length m - (length m - cap) + 1 - cap)%nat with 1%nat by lia.
    replace (length m + 1 - cap)%nat with ((length m - cap) + 1)%nat by lia.
    rewrite <- drop_drop. by rewrite (drop_app_le m) by lia.
Qed.

Lemma foldl_deque_append {A : Type} (cap : nat) (l m : list A) :
  foldl (deque_append cap) (last_n cap m) l = last_n cap (m ++ l).
Proof.
  revert m. induction l as [|x l IH]; intros m; simpl.
  - by rewrite app_nil_r.
  - rewrite deque_append_last_n, IH. by rewrite <- app_assoc.
Qed.

Lemma foldl_series_append_of (cap : nat) (l cs : list Candle) :
  foldl series_append (series_of cap cs) l = series_of cap (foldl (deque_append cap) cs l).
Proof.
  revert cs. induction l as [|x l IH]; intros cs; simpl; [done|].
  by rewrite series_append_of, IH.
Qed.

Lemma foldl_series_within (cap : nat) (l cs : list Candle) :
  (length cs <= cap)%nat ->
  foldl series_append (series_of cap cs) l = series_of cap (last_n cap (cs ++ l)).
Proof.
  intros Hle. rewrite foldl_series_append_of. f_equal.
  rewrite <- foldl_deque_append. f_equal.
  unfold last_n. by replace (length cs - cap)%nat with 0%nat by lia.
Qed.

End Ring.

Lemma foldl_series_append_facts (s : CandleSeries) (l : list Candle) :
  series_wf s -> (series_len s <= capacity s)%nat ->
  series_candles (foldl series_append s l)
    = last_n (capacity s) (series_candles s ++ l) /\
  series_wf (foldl series_append s l) /\
  (series_len (foldl series_append s l) <= capacity s)%nat /\
  capacity (foldl series_append s l) = capacity s.
Proof.
  intros Hwf Hcap. pose proof (series_repr s Hwf) as Hs.
  remember (series_candles s) as cs eqn:Ecs. remember (capacity s) as cap eqn:Ecap.
  clear Ecs Ecap Hwf. subst s. rewrite series_len_of in Hcap.
  rewrite foldl_series_within by done.
  rewrite series_candles_of, series_len_of.
  split; [done|]. split; [apply series_wf_of|]. split; [|done].
  unfold last_n. rewrite length_drop. lia.
Qed.

(** X1: a ring keeps its most recent [capacity] records. Built from the
    empty ring by any sequence of appends, it holds exactly the last
    [capacity] of the appended records, oldest first; its eight deques have
    one length, which never exceeds the capacity. *)
Theorem ring_keeps_most_recent (cap : nat) (l : list Candle) :
  series_candles (foldl series_append (CandleSeries_init cap) l) = last_n cap l /\
  series_wf (foldl series_append (CandleSeries_init cap) l) /\
  (series_len (foldl series_append (CandleSeries_init cap) l) <= cap)%nat.
Proof.
  destruct (foldl_series_append_facts (CandleSeries_init cap) l)
    as (Hc & Hwf & Hlen & _).
  - unfold series_wf. simpl. repeat split.
  - unfold series_len. simpl. lia.
  - split; [exact Hc|]. split; [exact Hwf | exact Hlen].
Qed.

Lemma init_wf (cap : nat) : series_wf (CandleSeries_init cap).
Proof. unfold series_wf. simpl. repeat split. Defined.

(** ** Point-in-time window queries *)

Lemma scan_back_of (cap : nat) (cs : list Candle) (until_utc : datetime) (n : nat) :
  forall (i : nat) (out : list Candle),
    (i <= length cs)%nat -> (length out < n)%nat ->
    scan_back (series_of cap cs) until_utc n i out =
    Some (out ++ take (n - length out)
                   (reverse (filter (fun c => time c <= until_utc) (take i cs)))).
Proof.
  induction i as [|j IH]; intros out Hi Hout.
  - simpl. by rewrite take_0, filter_nil, reverse_nil, take_nil, app_nil_r.
  - destruct (lookup_lt_is_Some_2 cs j) as [c Hc]; [lia|].
    rewrite (take_S_r cs j c Hc), filter_app, reverse_app.
    simpl. rewrite candle_at_series_of, list_lookup_fmap, Hc. simpl.
    rewrite filter_cons, filter_nil.
    destruct (decide (time c <= until_utc)) as [Hle|Hgt].
    + rewrite (proj2 (Z.leb_le _ _) Hle). simpl.
      rewrite length_app. simpl.
      destruct (length out + 1 =? n)%nat eqn:En.
      * apply Nat.eqb_eq in En.
        replace (n - length out)%nat with 1%nat by lia. done.
      * apply Nat.eqb_neq in En. rewrite IH by (rewrite ?length_app; simpl; lia).
        rewrite length_app. simpl. rewrite <- app_assoc. simpl.
        by replace (n - length out)%nat with (S (n - (length out + 1)))%nat by lia.
    + rewrite (proj2 (Z.leb_gt _ _)) by lia. simpl. apply IH; lia.
Qed.

(** X2: [last_n_until] returns the [n] most recent stored records whose
    timestamp is not after the bound, oldest first, and all of them when
    there are fewer; for [n <= 0] it returns none. The ring's deques must
    have one length. *)
Theorem last_n_until_most_recent (st : gmap string CandleSeries) (tf : string)
    (s : CandleSeries) (until_utc : datetime) (n : Z) :
  st !! tf = Some s -> series_wf s ->
  last_n_until st tf until_utc n =
    Some (if n <=? 0 then []
          else last_n (Z.to_nat n)
                 (filter (fun c => time c <= until_utc) (series_candles s))).
Proof.
  intros Hs Hwf. unfold last_n_until. rewrite Hs. simpl.
  destruct (n <=? 0) eqn:En; [by rewrite orb_true_r|]. rewrite orb_false_r.
  apply Z.leb_gt in En.
  rewrite (series_repr s Hwf). rewrite series_len_of, series_candles_of.
  destruct (length (series_candles s) =? 0)%nat eqn:El.
  - apply Nat.eqb_eq, nil_length_inv in El. by rewrite El.
  - rewrite scan_back_of by (simpl; lia). simpl.
    rewrite firstn_all. rewrite Nat.sub_0_r, reverse_take, reverse_involutive.
    by rewrite length_reverse.
Qed.

Lemma last_n_until_most_recent_witness :
  last_n_until {["1m"%string := ring6]} "1m" (minute 4) 2
  = Some [bar 3 1051 1053 1050 1052; bar 4 1052 1054 1051 1053].
Proof.
  rewrite (last_n_until_most_recent {["1m"%string := ring6]} "1m" ring6 (minute 4) 2
             (lookup_singleton_eq _ _) ring6_wf).
  reflexivity.
Defined.

(** ** What a poll does to the ring and to the watermark *)

Section Poll.

Lemma accept_loop_capacity (safe : list Candle) (acc : CandleSeries * option datetime) :
  capacity (fst (foldl accept_step acc safe)) = capacity (fst acc).
Proof.
  revert acc. induction safe as [|c safe IH]; intros acc; simpl; [done|].
  rewrite IH. unfold accept_step. by destruct (accepts (snd acc) c).
Qed.

(** on a ring of positive capacity the local [last_time] of the poll loop
    stays the ring's last timestamp *)
Lemma accept_loop_last_time (safe : list Candle) (acc : CandleSeries * option datetime) :
  (0 < capacity (fst acc))%nat -> snd acc = series_last_time (fst acc) ->
  snd (foldl accept_step acc safe) = series_last_time (fst (foldl accept_step acc safe)).
Proof.
  revert acc. induction safe as [|c safe IH]; intros acc Hcap Hlt; simpl; [done|].
  apply IH; unfold accept_step; destruct (accepts (snd acc) c); simpl; try done.
  by rewrite series_append_pushes.
Qed.

Lemma poll_tf_other up now_min f iv f' (tf' : string) :
  poll_tf up now_min f iv = Some f' -> tf' <> iv.1 ->
  store f' !! tf' = store f !! tf' /\ _last_ts f' !! tf' = _last_ts f !! tf'.
Proof.
  unfold poll_tf. cbv zeta. intros H Hne.
  destruct (up iv.2 (watermark f iv.1)) as [rows|]; simpl in H; [|done].
  destruct (store f !! iv.1) as [s|]; simpl in H; [|done].
  destruct (snd _) in H; inversion H; subst f'; simpl;
    rewrite ?lookup_insert_ne by done; done.
Qed.

Lemma poll_tf_synced up now_min f iv f' :
  (forall s, store f !! iv.1 = Some s -> (0 < capacity s)%nat) ->
  poll_tf up now_min f iv = Some f' -> synced f' iv.1.
Proof.
  unfold poll_tf. cbv zeta. intros Hcap H.
  destruct (up iv.2 (watermark f iv.1)) as [rows|]; simpl in H; [|done].
  destruct (store f !! iv.1) as [s|] eqn:Es; simpl in H; [|done].
  pose proof (accept_loop_last_time (List.filter (closed_valid now_min) rows)
                (s, series_last_time s) (Hcap s eq_refl) eq_refl) as Hl.
  intros s' t Hs' Ht.
  destruct (snd _) as [t'|] eqn:Esnd in H; inversion H; subst f'; simpl in *;
    rewrite lookup_insert_eq in Hs'; inversion Hs'; subst s'; rewrite Ht in Hl.
  - rewrite Esnd in Hl. inversion Hl; subst. by rewrite lookup_insert_eq.
  - rewrite Esnd in Hl. done.
Qed.

Lemma poll_tf_capacity up now_min f iv f' :
  (forall tf s, store f !! tf = Some s -> (0 < capacity s)%nat) ->
  poll_tf up now_min f iv = Some f' ->
  (forall tf s, store f' !! tf = Some s -> (0 < capacity s)%nat) /\
  intervals f' = intervals f.
Proof.
  unfold poll_tf. cbv zeta. intros Hcap H.
  destruct (up iv.2 (watermark f iv.1)) as [rows|]; simpl in H; [|done].
  destruct (store f !! iv.1) as [s|] eqn:Es; simpl in H; [|done].
  assert (forall tf s', <[iv.1 := fst (foldl accept_step (s, series_last_time s)
            (List.filter (closed_valid now_min) rows))]> (store f) !! tf = Some s' ->
            (0 < capacity s')%nat) as Hst.
  { intros tf s' Hl. destruct (decide (iv.1 = tf)) as [E|Hne].
    - subst tf. rewrite lookup_insert_eq in Hl. inversion Hl; subst s'.
      rewrite accept_loop_capacity. simpl. by eapply Hcap.
    - rewrite lookup_insert_ne in Hl by done. by eapply Hcap. }
  destruct (snd _) in H; inversion H; subst f'; simpl; by split.
Qed.

Lemma poll_tf_keeps_synced up now_min f iv f' (tf : string) :
  (forall s, store f !! iv.1 = Some s -> (0 < capacity s)%nat) ->
  synced f tf -> poll_tf up now_min f iv = Some f' -> synced f' tf.
Proof.
  intros Hcap Hsy H. destruct (decide (tf = iv.1)) as [->|Hne].
  - by eapply poll_tf_synced.
  - destruct (poll_tf_other _ _ _ _ _ tf H Hne) as [E1 E2].
    intros s t. rewrite E1, E2. apply Hsy.
Qed.

Lemma poll_intervals_synced up now_min ivs f f' :
  (forall tf s, store f !! tf = Some s -> (0 < capacity s)%nat) ->
  poll_intervals up now_min ivs f = (f', true) ->
  (forall iv, iv ∈ ivs -> synced f' iv.1) /\
  (forall tf, synced f tf -> synced f' tf).
Proof.
  revert f. induction ivs as [|iv ivs IH]; intros f Hcap H; simpl in H.
  - inversion H; subst. split; [|done]. intros iv Hiv. by apply elem_of_nil in Hiv.
  - destruct (poll_tf up now_min f iv) as [f1|] eqn:E; [|done].
    destruct (poll_tf_capacity _ _ _ _ _ Hcap E) as [Hcap1 _].
    destruct (IH f1 Hcap1 H) as [Hin Hkeep]. split.
    + intros iv' Hiv'. apply elem_of_cons in Hiv' as [->|Hiv']; [|by apply Hin].
      apply Hkeep. eapply poll_tf_synced; [|exact E]. intros s. apply Hcap.
    + intros tf Hsy. apply Hkeep. eapply poll_tf_keeps_synced; [|exact Hsy|exact E].
      intros s. apply Hcap.
Qed.

End Poll.

(** X3: after a [poll_once] that ran to the end, the watermark of every
    configured interval whose ring is not empty is the integer timestamp of
    the ring's last record (rings of positive capacity), so the next fetch
    asks for the data since the last stored record. *)
Theorem poll_once_syncs_watermark up now_min (f f' : DataFeed) (tf : string) (minutes : Z)
    (s' : CandleSeries) (t : datetime) :
  (forall tf0 s, store f !! tf0 = Some s -> (0 < capacity s)%nat) ->
  poll_once up now_min f = (f', true) ->
  (tf, minutes) ∈ intervals f ->
  store f' !! tf = Some s' -> series_last_time s' = Some t ->
  watermark f' tf = Some (timestamp_int t).
Proof.
  intros Hcap Hp Hin Hs' Ht. unfold poll_once in Hp.
  destruct (poll_intervals_synced _ _ _ _ _ Hcap Hp) as [Hsy _].
  specialize (Hsy (tf, minutes) Hin s' t Hs' Ht). simpl in Hsy.
  unfold watermark. by rewrite Hsy.
Qed.

Lemma feed_behind_capacity (tf0 : string) (s : CandleSeries) :
  store feed_behind !! tf0 = Some s -> (0 < capacity s)%nat.
Proof.
  unfold feed_behind. simpl. intros H.
  apply lookup_singleton_Some in H as [_ <-]. simpl. lia.
Defined.

Lemma poll_once_syncs_watermark_witness :
  watermark (fst (poll_once fresh_upstream (minute 4) feed_behind)) "1m"
    = Some (timestamp_int (minute 3)).
Proof.
  apply (poll_once_syncs_watermark fresh_upstream (minute 4) feed_behind
           (fst (poll_once fresh_upstream (minute 4) feed_behind)) "1m" 1
           (foldl series_append ring_at_2 [bar 3 1051 1053 1050 1052]) (minute 3)
           feed_behind_capacity).
  - vm_compute. reflexivity.
  - apply list_elem_of_here.
  - vm_compute. reflexivity.
  - vm_compute. reflexivity.
Defined.

(** X4: one interval's poll only appends. On a ring whose deques have
    one length and which is within capacity, the ring after the poll holds
    the last [capacity] of the old records followed by the accepted ones;
    the accepted records are closed and valid, strictly increasing by
    timestamp and newer than the ring's last record; the rings of the other
    intervals are untouched. *)
Theorem poll_tf_only_appends up now_min (f : DataFeed) (tf : string) (minutes : Z)
    (rows : list Candle) (s : CandleSeries) :
  up minutes (watermark f tf) = Some rows ->
  store f !! tf = Some s -> series_wf s -> (series_len s <= capacity s)%nat ->
  exists f' s',
    poll_tf up now_min f (tf, minutes) = Some f' /\
    store f' !! tf = Some s' /\
    series_candles s' =
      last_n (capacity s)
        (series_candles s ++
         accepted (series_last_time s) (List.filter (closed_valid now_min) rows)) /\
    Forall (fun c => closed_valid now_min c = true /\ accepts (series_last_time s) c = true)
      (accepted (series_last_time s) (List.filter (closed_valid now_min) rows)) /\
    increasing (time <$> accepted (series_last_time s)
                           (List.filter (closed_valid now_min) rows)) /\
    forall tf', tf' <> tf -> store f' !! tf' = store f !! tf'.
Proof.
  intros Hup Hs Hwf Hcap.
  destruct (poll_tf up now_min f (tf, minutes)) as [f'|] eqn:Hp.
  2: { unfold poll_tf in Hp. cbv zeta in Hp. simpl in Hp. rewrite Hup in Hp. simpl in Hp.
       by rewrite Hs in Hp. }
  assert (store f' !! tf =
            Some (foldl series_append s
                    (accepted (series_last_time s)
                       (List.filter (closed_valid now_min) rows)))) as Hs'.
  { unfold poll_tf in Hp. cbv zeta in Hp. simpl in Hp. rewrite Hup in Hp. simpl in Hp.
    rewrite Hs in Hp. simpl in Hp. rewrite accept_loop_appends in Hp.
    destruct (snd _) in Hp; inversion Hp; subst f'; simpl; apply lookup_insert_eq. }
  exists f', (foldl series_append s
                (accepted (series_last_time s) (List.filter (closed_valid now_min) rows))).
  split; [done|]. split; [exact Hs'|].
  destruct (foldl_series_append_facts s
              (accepted (series_last_time s) (List.filter (closed_valid now_min) rows))
              Hwf Hcap) as (Hc & _).
  split; [exact Hc|]. destruct (accepted_increasing
    (List.filter (closed_valid now_min) rows) (series_last_time s)) as [Hinc Hacc].
  split; [|split; [exact Hinc|]].
  - apply Forall_forall. intros c Hc'. split.
    + assert (Forall (fun c => closed_valid now_min c = true)
                (accepted (series_last_time s) (List.filter (closed_valid now_min) rows))) as Hall.
      { apply accepted_Forall, Forall_forall. intros x Hx.
        by apply list_elem_of_In, filter_In in Hx as [_ Hx]. }
      by eapply Forall_forall in Hall.
    + by eapply Forall_forall in Hacc.
  - intros tf' Hne. by apply (poll_tf_other _ _ _ _ _ tf' Hp).
Qed.

Lemma poll_tf_only_appends_witness :
  exists f' s',
    poll_tf fresh_upstream (minute 4) feed_at_2 ("1m"%string, 1) = Some f' /\
    store f' !! "1m"%string = Some s' /\
    series_candles s' = [bar 2 1050 1052 1049 1051; bar 3 1051 1053 1050 1052].
Proof.
  destruct (poll_tf_only_appends fresh_upstream (minute 4) feed_at_2 "1m" 1
              [bar 2 1050 1052 1049 1051; bar 3 1051 1053 1050 1052;
               bar 4 1052 1052 1052 1052] ring_at_2 eq_refl eq_refl)
    as (f' & s' & Hp & Hs' & Hc & _).
  - unfold series_wf. vm_compute. repeat split.
  - vm_compute. lia.
  - exists f', s'. split; [exact Hp|]. split; [exact Hs'|]. rewrite Hc. reflexivity.
Defined.

(** ** Priming and backfill *)

Section Startup.

Lemma store_append_all_single (tf : string) (cs : list Candle) (s : CandleSeries) :
  store_append_all {[tf := s]} tf cs = Some {[tf := foldl series_append s cs]}.
Proof.
  unfold store_append_all. revert s. induction cs as [|c cs IH]; intros s; simpl; [done|].
  unfold store_append at 2. rewrite lookup_singleton_eq. simpl.
  rewrite insert_singleton_eq. apply IH.
Qed.

Lemma times_series_of (cap : nat) (cs : list Candle) :
  times (series_of cap cs) = time <$> cs.
Proof. done. Qed.

Lemma increasing_filter (p : Candle -> bool) (l : list Candle) :
  increasing (time <$> l) -> increasing (time <$> List.filter p l).
Proof.
  induction l as [|c l IH]; simpl; [done|]. intros H.
  apply StronglySorted_cons in H as [Hall Hs]. destruct (p c); simpl; [|by apply IH].
  apply StronglySorted_cons. split; [|by apply IH].
  apply Forall_fmap, Forall_forall. intros x Hx.
  apply list_elem_of_In, filter_In in Hx as [Hx _]. apply list_elem_of_In in Hx.
  eapply Forall_forall in Hall; [exact Hall|]. by apply list_elem_of_fmap_2.
Qed.

Lemma increasing_last_n (n : nat) (l : list Candle) :
  increasing (time <$> l) -> increasing (time <$> last_n n l).
Proof. intros H. unfold last_n. rewrite fmap_drop. by apply increasing_drop. Qed.

End Startup.

(** X5: what start-up leaves in the store. When both fetches answer,
    [main] leaves in the "1m" ring the last ten fetched records not after
    the effective reference time, followed by every record of the second
    fetch newer than the last of those (or than the effective reference
    time when there is none), none of them filtered for being closed or
    traded; the watermark is the integer timestamp of the last stored
    record, or of the effective reference time when nothing was stored.
    When both answers come strictly increasing by timestamp, so is the
    ring. *)
Theorem startup_contents (up1 up2 : Upstream) (ref now_closed : datetime)
    (r1 r2 : list Candle) :
  up1 1 (Some (timestamp_int (Z.min ref now_closed) - 15 * 60)) = Some r1 ->
  up2 1 (Some (timestamp_int
                 (match last (last_n 10 (List.filter
                                (fun c => time c <=? Z.min ref now_closed) r1)) with
                  | Some c => time c
                  | None => Z.min ref now_closed
                  end))) = Some r2 ->
  exists f s,
    main_startup up1 up2 ref now_closed = Some f /\
    store f !! "1m"%string = Some s /\
    series_wf s /\
    series_candles s =
      last_n 1000
        (last_n 10 (List.filter (fun c => time c <=? Z.min ref now_closed) r1) ++
         List.filter
           (fun c => match last (last_n 10 (List.filter
                                   (fun c => time c <=? Z.min ref now_closed) r1)) with
                     | Some c0 => time c0
                     | None => Z.min ref now_closed
                     end <? time c) r2) /\
    watermark f "1m" =
      Some (match series_last_time s with
            | Some t => timestamp_int t
            | None => timestamp_int (Z.min ref now_closed)
            end) /\
    (increasing (time <$> r1) -> increasing (time <$> r2) -> increasing (times s)).
Proof.
  intros H1 H2. unfold main_startup. cbv zeta. rewrite H1.
  change (CandleStore_init 1000 [("1m"%string, 1)])
    with (<["1m"%string := CandleSeries_init 1000]> (∅ : gmap string CandleSeries)).
  rewrite insert_empty.
  cbn -[store_append_all last_n List.filter timestamp_int Z.min foldl].
  rewrite store_append_all_single.
  cbn -[store_append_all last_n List.filter timestamp_int Z.min foldl].
  rewrite H2.
  cbn -[store_append_all last_n List.filter timestamp_int Z.min foldl].
  rewrite store_append_all_single.
  cbn -[store_append_all last_n List.filter timestamp_int Z.min foldl store_last_time].
  unfold store_last_time. rewrite lookup_singleton_eq.
  cbn -[store_append_all last_n List.filter timestamp_int Z.min foldl].
  set (primed := last_n 10 (List.filter (fun c => time c <=? Z.min ref now_closed) r1)) in *.
  set (post_since := match last primed with
                     | Some c => time c
                     | None => Z.min ref now_closed
                     end) in *.
  set (post := List.filter (fun c => post_since <? time c) r2).
  rewrite <- foldl_app.
  destruct (foldl_series_append_facts (CandleSeries_init 1000) (primed ++ post))
    as (Hc & Hwf & _); [unfold series_wf; simpl; repeat split | unfold series_len; simpl; lia |].
  change (capacity (CandleSeries_init 1000)) with 1000%nat in Hc.
  change (series_candles (CandleSeries_init 1000)) with (@nil Candle) in Hc.
  simpl in Hc.
  eexists. eexists. split; [reflexivity|]. simpl.
  split; [apply lookup_singleton_eq|]. split; [exact Hwf|]. split; [exact Hc|]. split.
  - unfold watermark. simpl. rewrite lookup_insert_eq. done.
  - intros Hr1 Hr2. rewrite (series_repr _ Hwf), times_series_of, Hc.
    apply increasing_last_n. rewrite fmap_app. apply StronglySorted_app.
    assert (increasing (time <$> primed)) as Hp
      by (by apply increasing_last_n, increasing_filter).
    split; [|split; [exact Hp | by apply increasing_filter]].
    intros x y Hx Hy.
    apply list_elem_of_fmap_1 in Hy as (c & -> & Hc').
    apply list_elem_of_In, filter_In in Hc' as [_ Hgt]. apply Z.ltb_lt in Hgt.
    assert (x <= post_since); [|lia].
    unfold post_since. destruct (last primed) as [c0|] eqn:El.
    + assert (last (time <$> primed) = Some (time c0)) as El' by (by rewrite fmap_last, El).
      pose proof (increasing_bound _ _ Hp El') as Hb.
      by eapply Forall_forall in Hb.
    + apply last_None in El. rewrite El in Hx. by apply elem_of_nil in Hx.
Qed.

Lemma startup_contents_witness :
  exists f s,
    main_startup startup_upstream startup_upstream (minute 0) (minute 0) = Some f /\
    store f !! "1m"%string = Some s /\
    series_candles s = [bar (-2) 1048 1050 1047 1050; idle_bar (-1) 1050;
                        bar 0 1050 1051 1050 1051] /\
    increasing (times s).
Proof.
  destruct (startup_contents startup_upstream startup_upstream (minute 0) (minute 0)
    [bar (-2) 1048 1050 1047 1050; idle_bar (-1) 1050; bar 0 1050 1051 1050 1051]
    [bar (-2) 1048 1050 1047 1050; idle_bar (-1) 1050; bar 0 1050 1051 1050 1051]
    eq_refl eq_refl) as (f & s & Hm & Hs & _ & Hc & _ & Hinc).
  exists f, s. split; [exact Hm|]. split; [exact Hs|]. split.
  - rewrite Hc. reflexivity.
  - apply Hinc; vm_compute; repeat constructor.
Defined.

(** ** Verification cycles *)

Section VerifyCycle.

Lemma differs_refl (a : Candle) : differs a a = false.
Proof. unfold differs. by rewrite !_neq_refl, Z.eqb_refl. Qed.

(** a cycle with five records on either side, spelled out *)
Lemma verify_cycle up now_min (s1 : CandleSeries) (rows : list Candle) :
  series_wf s1 ->
  up 1 (Some (timestamp_int (now_min - 10 * 60 * 1000000))) = Some rows ->
  (5 <= series_len s1)%nat ->
  (5 <= length (List.filter (closed_valid now_min) rows))%nat ->
  exists ms,
    verify_last5_and_fix up now_min s1 =
      (foldl overwrite s1 ms, match ms with [] => VerifyOK | _ => VerifyFixed ms end) /\
    NoDup (verify_pairs s1 (verify_fetched now_min rows)).*1 /\
    Forall (fun ia => (ia.1 < series_len s1)%nat)
      (verify_pairs s1 (verify_fetched now_min rows)) /\
    NoDup ms.*1 /\ Forall (fun ia => (ia.1 < series_len s1)%nat) ms /\
    forall idx a, (idx, a) ∈ ms <->
      (idx, a) ∈ verify_pairs s1 (verify_fetched now_min rows) /\
      exists c, candle_at s1 idx = Some c /\ differs c a = true.
Proof.
  intros Hwf Hup Hs Hf.
  assert (length (verify_fetched now_min rows) = 5%nat) as Hlen by (by apply last_n_length).
  destruct (verify_pairs_facts s1 (verify_fetched now_min rows)) as [Hfst Hrange];
    [done | lia |].
  assert (Forall (fun ia => (ia.1 < series_len s1)%nat)
            (verify_pairs s1 (verify_fetched now_min rows))) as Hin.
  { eapply Forall_impl; [exact Hrange|]. simpl. lia. }
  destruct (find_mismatches_filter s1 _ Hwf Hin) as (ms & Hms & Hsub & Hiff).
  assert (Forall (fun ia => (ia.1 < series_len s1)%nat) ms) as Hin'.
  { apply Forall_forall. intros ia Hia. eapply Forall_forall in Hin; [exact Hin|].
    by eapply elem_of_sublist. }
  assert (NoDup (verify_pairs s1 (verify_fetched now_min rows)).*1) as Hnd0
    by (rewrite Hfst; apply NoDup_seq).
  assert (NoDup ms.*1) as Hnd
    by (eapply sublist_NoDup; [exact Hnd0 | by apply (fmap_sublist fst)]).
  exists ms. split; [|done].
  unfold verify_last5_and_fix. rewrite Hup.
  destruct (series_len s1 <? 5)%nat eqn:E1; [apply Nat.ltb_lt in E1; lia|].
  destruct (length (verify_fetched now_min rows) <? 5)%nat eqn:E2;
    [apply Nat.ltb_lt in E2; lia|].
  simpl. rewrite Hms. destruct ms as [|m ms]; [done|].
  by rewrite patch_all_wf.
Qed.

Lemma NoDup_fst_functional {A B : Type} (l : list (A * B)) (i : A) (x y : B) :
  NoDup l.*1 -> (i, x) ∈ l -> (i, y) ∈ l -> x = y.
Proof.
  induction l as [|[j z] l IH]; simpl; intros Hnd Hx Hy.
  - by apply elem_of_nil in Hx.
  - apply NoDup_cons in Hnd as [Hfresh Hnd].
    apply elem_of_cons in Hx as [Ex|Hx]; apply elem_of_cons in Hy as [Ey|Hy].
    + congruence.
    + inversion Ex; subst. destruct Hfresh. by apply (list_elem_of_fmap_2 fst) in Hy.
    + inversion Ey; subst. destruct Hfresh. by apply (list_elem_of_fmap_2 fst) in Hx.
    + by apply IH.
Qed.

End VerifyCycle.

(** X6: a correction settles. Whatever a cycle with five records on
    either side did to the ring, a second cycle given the same answer at
    the same minute finds nothing to correct: it reports "verify last5: OK"
    and leaves the ring as the first cycle left it. *)
Theorem verify_twice_is_clean up now_min (s1 : CandleSeries) (rows : list Candle) :
  series_wf s1 ->
  up 1 (Some (timestamp_int (now_min - 10 * 60 * 1000000))) = Some rows ->
  (5 <= series_len s1)%nat ->
  (5 <= length (List.filter (closed_valid now_min) rows))%nat ->
  verify_last5_and_fix up now_min (fst (verify_last5_and_fix up now_min s1)) =
    (fst (verify_last5_and_fix up now_min s1), VerifyOK).
Proof.
  intros Hwf Hup Hs Hf.
  destruct (verify_cycle up now_min s1 rows Hwf Hup Hs Hf)
    as (ms & -> & Hnd0 & Hin0 & Hnd & Hin & Hiff).
  simpl. destruct (foldl_overwrite_wf ms s1 Hwf) as (Hwf' & Hlen' & _).
  destruct (verify_cycle up now_min (foldl overwrite s1 ms) rows Hwf' Hup)
    as (ms' & -> & _ & _ & _ & _ & Hiff'); [by rewrite Hlen' | done |].
  assert (ms' = []) as ->; [|done].
  destruct ms' as [|[idx a] ms']; [done|]. exfalso.
  destruct (proj1 (Hiff' idx a)) as (Hp & c & Hc & Hd); [apply list_elem_of_here|].
  unfold verify_pairs in Hp. rewrite Hlen' in Hp. fold (verify_pairs s1 (verify_fetched now_min rows)) in Hp.
  destruct (decide ((idx, a) ∈ ms)) as [Hel|Hnel].
  - rewrite (candle_at_foldl_flagged ms s1 idx a Hwf Hnd Hin Hel) in Hc.
    inversion Hc; subst c. by rewrite differs_refl in Hd.
  - assert (idx ∉ ms.*1) as Hfresh.
    { intros Hidx. apply list_elem_of_fmap_1 in Hidx as ([i b] & -> & Hb). simpl in *.
      assert (b = a); [|by subst].
      eapply (NoDup_fst_functional _ i); [exact Hnd0| |exact Hp].
      by apply Hiff in Hb as [Hb _]. }
    rewrite candle_at_foldl_other in Hc by done.
    apply Hnel, Hiff. eauto.
Qed.

Lemma verify_twice_is_clean_witness :
  snd (verify_last5_and_fix corrected_upstream (minute 7) ring6) <> VerifyOK /\
  verify_last5_and_fix corrected_upstream (minute 7)
    (fst (verify_last5_and_fix corrected_upstream (minute 7) ring6)) =
  (fst (verify_last5_and_fix corrected_upstream (minute 7) ring6), VerifyOK).
Proof.
  split; [vm_compute; congruence|].
  apply (verify_twice_is_clean corrected_upstream (minute 7) ring6
    [bar 2 1050 1052 1049 1051; bar 3 1051 1053 1050 1052;
     bar 4 1052 1057 1051 1053; bar 5 1053 1055 1052 1054;
     bar 6 1054 1056 1053 1055; bar 7 1055 1055 1055 1055] ring6_wf eq_refl).
  - vm_compute. lia.
  - vm_compute. lia.
Defined.

(** X7: a cycle never inserts or deletes. For every outcome the ring
    keeps its length, its capacity and the common length of its deques;
    unless the cycle reports corrections the ring is left exactly as it
    was (fetch failure, fewer than five records on a side, nothing to
    correct). *)
Theorem verify_keeps_shape up now_min (s1 : CandleSeries) :
  series_wf s1 ->
  series_wf (fst (verify_last5_and_fix up now_min s1)) /\
  series_len (fst (verify_last5_and_fix up now_min s1)) = series_len s1 /\
  capacity (fst (verify_last5_and_fix up now_min s1)) = capacity s1 /\
  ((forall ms, snd (verify_last5_and_fix up now_min s1) <> VerifyFixed ms) ->
   fst (verify_last5_and_fix up now_min s1) = s1).
Proof.
  intros Hwf.
  destruct (up 1 (Some (timestamp_int (now_min - 10 * 60 * 1000000)))) as [rows|] eqn:Hup.
  2: { unfold verify_last5_and_fix. rewrite Hup. simpl. done. }
  destruct (decide (5 <= series_len s1)%nat) as [Hs|Hs].
  2: { unfold verify_last5_and_fix. rewrite Hup.
       destruct (series_len s1 <? 5)%nat eqn:E; [|apply Nat.ltb_ge in E; lia]. done. }
  destruct (decide (5 <= length (List.filter (closed_valid now_min) rows))%nat) as [Hf|Hf].
  2: { unfold verify_last5_and_fix. rewrite Hup.
       assert (length (verify_fetched now_min rows) < 5)%nat as Hlt.
       { unfold verify_fetched, last_n. rewrite length_drop. lia. }
       destruct (length (verify_fetched now_min rows) <? 5)%nat eqn:E;
         [|apply Nat.ltb_ge in E; lia].
       rewrite orb_true_r. done. }
  destruct (verify_cycle up now_min s1 rows Hwf Hup Hs Hf) as (ms & -> & _).
  simpl. destruct (foldl_overwrite_wf ms s1 Hwf) as (H1 & H2 & H3).
  split; [done|]. split; [done|]. split; [done|].
  intros Hno. destruct ms as [|m ms]; [done|]. by destruct (Hno (m :: ms)).
Qed.

Lemma verify_keeps_shape_witness :
  series_len (fst (verify_last5_and_fix lagging_upstream (minute 7) ring6)) = 6%nat.
Proof.
  rewrite (proj1 (proj2 (verify_keeps_shape lagging_upstream (minute 7) ring6 ring6_wf))).
  reflexivity.
Defined.

(** ** The journal of the strategy *)

Section Journal.

Lemma _exit_journal o price ts st :
  journal (_exit o price ts st) = journal st \/
  exists p, active st = Some p /\
    journal (_exit o price ts st) = journal st ++ [LogExit (closed p o price ts) "exit"].
Proof. unfold _exit. destruct (active st) as [p|]; [right; eauto | by left]. Qed.

Lemma closed_own_level (p : Position) (ts : datetime) (n : string) :
  exit_at_own_level (LogExit (closed p win (target p) ts) n) /\
  exit_at_own_level (LogExit (closed p loss (stop p) ts) n).
Proof. split; simpl; (split; [by eexists|]); [left | right]; done. Qed.

Lemma on_live_price_rows price ts st :
  Forall exit_at_own_level (journal st) ->
  Forall exit_at_own_level (journal (on_live_price price ts st)).
Proof.
  intros H. unfold on_live_price. destruct (active st) as [p|] eqn:Ea; [|done].
  destruct (side p);
    repeat (match goal with |- context [if ?b then _ else _] => destruct b end);
    try done; rewrite (_exit_active _ _ _ _ _ Ea); simpl;
    (apply Forall_app; split; [done|]); (constructor; [|done]); apply closed_own_level.
Qed.

Lemma _manage_position_rows tie c st :
  Forall exit_at_own_level (journal st) ->
  Forall exit_at_own_level (journal (_manage_position tie c st)).
Proof.
  intros H. unfold _manage_position. destruct (active st) as [p|] eqn:Ea; [|done].
  destruct tie, (side p);
    repeat (match goal with |- context [if ?b then _ else _] => destruct b end);
    try done; rewrite (_exit_active _ _ _ _ _ Ea); simpl;
    (apply Forall_app; split; [done|]); (constructor; [|done]); apply closed_own_level.
Qed.

Lemma _enter_rows (P : JournalRow -> Prop) sd price ts note st :
  (forall n, P (LogEntry (entered sd price ts st) n)) ->
  Forall P (journal st) -> Forall P (journal (_enter sd price ts note st)).
Proof.
  intros Hp H. unfold _enter. destruct (active st); [done|].
  destruct (max_positions st <? 1); [done|]. simpl.
  apply Forall_app. split; [done|]. constructor; [|done].
  specialize (Hp ("entered " +:+ note)). by destruct sd.
Qed.

Lemma on_new_close_rows tie c st :
  Forall exit_at_own_level (journal st) ->
  Forall exit_at_own_level (journal (on_new_close tie c st)).
Proof.
  intros H. unfold on_new_close. destruct (time c <? ref_utc st); [done|].
  destruct (blue_high st), (blue_low st); try done.
  destruct (active st); [by apply _manage_position_rows|].
  repeat (match goal with |- context [if ?b then _ else _] => destruct b end);
    try done; by apply _enter_rows.
Qed.

Lemma _exit_configured k ref o price ts st :
  configured k ref st -> configured k ref (_exit o price ts st).
Proof. unfold _exit. by destruct (active st). Qed.

Lemma _enter_configured k ref sd price ts note st :
  configured k ref st -> configured k ref (_enter sd price ts note st).
Proof.
  unfold _enter. destruct (active st); [done|]. by destruct (max_positions st <? 1).
Qed.

Lemma step_configured k ref tie st e :
  configured k ref st -> configured k ref (step tie st e).
Proof.
  intros H. destruct e as [c|price ts|hi lo]; simpl; [| |done].
  - unfold on_new_close. destruct (time c <? ref_utc st); [done|].
    destruct (blue_high st), (blue_low st); try done.
    destruct (active st) as [p|].
    + unfold _manage_position. destruct (active st); [|done].
      repeat (match goal with |- context [if ?b then _ else _] => destruct b end);
        try done; by apply _exit_configured.
    + repeat (match goal with |- context [if ?b then _ else _] => destruct b end);
        try done; by apply _enter_configured.
  - unfold on_live_price. destruct (active st) as [p|]; [|done].
    destruct (side p);
      repeat (match goal with |- context [if ?b then _ else _] => destruct b end);
      try done; by apply _exit_configured.
Qed.

Lemma step_entries k ref tie st e :
  configured k ref st ->
  Forall (entry_by_the_book k ref) (journal st) ->
  Forall (entry_by_the_book k ref) (journal (step tie st e)).
Proof.
  intros (Hr & Hm & Hs & Hrr & Hc) H. destruct e as [c|price ts|hi lo]; simpl; [| |done].
  - unfold on_new_close. destruct (time c <? ref_utc st) eqn:Et; [done|].
    apply Z.ltb_ge in Et. rewrite Hr in Et.
    destruct (blue_high st), (blue_low st); try done.
    destruct (active st) as [p|] eqn:Ea.
    + destruct (_manage_position_cases tie c st) as [->|(q & o & pr & Hq & ->)]; [done|].
      rewrite (_exit_active _ _ _ _ _ Hq). simpl. apply Forall_app. split; [done|].
      by repeat constructor.
    + repeat (match goal with |- context [if ?b then _ else _] => destruct b end);
        try done; apply _enter_rows; try done; intros n; simpl;
        rewrite Hs, Hrr, Hc; done.
  - unfold on_live_price. destruct (active st) as [p|] eqn:Ea; [|done].
    destruct (side p);
      repeat (match goal with |- context [if ?b then _ else _] => destruct b end);
      try done; rewrite (_exit_active _ _ _ _ _ Ea); simpl;
      (apply Forall_app; split; [done|]); by repeat constructor.
Qed.

End Journal.

(** X8: every exit in the journal is at the position's own level.
    After any sequence of closed candles, live prices and level settings,
    each exit row of the journal is a win priced at the position's target
    or a loss priced at its stop, never at the price that triggered it, and
    carries the time of the exit. *)
Theorem exits_at_own_level (k : Settings) (ref : datetime) (tie : bool) (es : list Event) :
  Forall exit_at_own_level (journal (run tie es (BreakoutStrategy_init k ref))).
Proof.
  unfold run.
  assert (Forall exit_at_own_level (journal (BreakoutStrategy_init k ref))) as H by constructor.
  revert H. generalize (BreakoutStrategy_init k ref).
  induction es as [|e es IH]; intros st H; simpl; [done|].
  apply IH. destruct e; simpl; [by apply on_new_close_rows | by apply on_live_price_rows | done].
Qed.

(** X9: every entry in the journal is by the book. After any sequence
    of events, each entry row was opened at or after the reference time,
    with the configured capital, no exit data, and stop and target at
    entry -/+ risk step and entry +/- risk/reward x risk step (signs by
    side), with the settings the engine was built with. *)
Theorem entries_by_the_book (k : Settings) (ref : datetime) (tie : bool) (es : list Event) :
  Forall (entry_by_the_book k ref) (journal (run tie es (BreakoutStrategy_init k ref))).
Proof.
  unfold run.
  assert (configured k ref (BreakoutStrategy_init k ref) /\
          Forall (entry_by_the_book k ref) (journal (BreakoutStrategy_init k ref))) as H
    by (by split; [|constructor]).
  revert H. generalize (BreakoutStrategy_init k ref).
  induction es as [|e es IH]; intros st [Hc H]; simpl; [done|].
  apply IH. split; [by apply step_configured | by apply step_entries].
Qed.

(** X10: no levels or no allowance, no trade. Whatever closed candles
    and live prices arrive, the engine opens nothing and journals nothing
    as long as no levels have been set, and never at all when the
    configured number of positions is zero or less. *)
Theorem no_levels_no_trade (k : Settings) (ref : datetime) (tie : bool) (es : list Event) :
  MAX_CONCURRENT_POS k <= 0 \/ Forall (fun e => is_set_blue e = false) es ->
  active (run tie es (BreakoutStrategy_init k ref)) = None /\
  journal (run tie es (BreakoutStrategy_init k ref)) = [].
Proof.
  unfold run. intros Hor.
  assert (active (BreakoutStrategy_init k ref) = None /\
          journal (BreakoutStrategy_init k ref) = [] /\
          (max_positions (BreakoutStrategy_init k ref) <= 0 \/
           (blue_high (BreakoutStrategy_init k ref) = None /\
            Forall (fun e => is_set_blue e = false) es))) as H.
  { split; [done|]. split; [done|]. destruct Hor; [by left | by right]. }
  clear Hor. revert H. generalize (BreakoutStrategy_init k ref).
  induction es as [|e es IH]; intros st (Ha & Hj & Hor); simpl; [done|].
  apply IH. destruct e as [c|price ts|hi lo]; simpl.
  - assert (on_new_close tie c st = st) as ->.
    { unfold on_new_close. destruct (time c <? ref_utc st); [done|].
      destruct (blue_high st) as [bh|] eqn:Eh; [|done].
      destruct (blue_low st); [|done]. rewrite Ha.
      destruct Hor as [Hm|[Hb _]]; [|done].
      destruct (max_positions st <=? 0) eqn:E; [done|]. apply Z.leb_gt in E. lia. }
    split; [done|]. split; [done|]. destruct Hor as [?|[? Hes]]; [by left|].
    right. split; [done|]. by apply Forall_cons in Hes as [_ ?].
  - assert (on_live_price price ts st = st) as -> by (unfold on_live_price; by rewrite Ha).
    split; [done|]. split; [done|]. destruct Hor as [?|[? Hes]]; [by left|].
    right. split; [done|]. by apply Forall_cons in Hes as [_ ?].
  - split; [done|]. split; [done|]. destruct Hor as [?|[_ Hes]]; [by left|].
    by apply Forall_cons in Hes as [? _].
Qed.

Lemma no_levels_no_trade_witness :
  journal (run true [NewClose (bar 1 1060 1061 1059 1061); LivePrice (d3 1063) tick_ts]
             (BreakoutStrategy_init default_settings (minute 0))) = [].
Proof.
  apply (no_levels_no_trade default_settings (minute 0) true
           [NewClose (bar 1 1060 1061 1059 1061); LivePrice (d3 1063) tick_ts]).
  right. repeat constructor.
Defined.

(** ** Stop, target and the two exit paths *)

Section Levels.

Lemma scaled_self (d : Decimal) : Dec.scaled (Dec.dexp d) d = Dec.coef d.
Proof. unfold Dec.scaled. rewrite Z.sub_diag. simpl. lia. Qed.

Lemma scaled_pos (E : Z) (d : Decimal) :
  E <= Dec.dexp d -> 0 < Dec.coef d -> 0 < Dec.scaled E d.
Proof.
  intros He Hc. unfold Dec.scaled. apply Z.mul_pos_pos; [done|]. apply pow10_pos. lia.
Qed.

Lemma scaled_mul (E1 E2 : Z) (a b : Decimal) :
  E1 <= Dec.dexp a -> E2 <= Dec.dexp b ->
  Dec.scaled (E1 + E2) (Dec.mul a b) = Dec.scaled E1 a * Dec.scaled E2 b.
Proof.
  intros Ha Hb. unfold Dec.scaled, Dec.mul. simpl.
  replace (Dec.dexp a + Dec.dexp b - (E1 + E2))
    with ((Dec.dexp a - E1) + (Dec.dexp b - E2)) by lia.
  rewrite Z.pow_add_r by lia. ring.
Qed.

Lemma dec_eq_common (E : Z) (a b : Decimal) :
  E <= Dec.dexp a -> E <= Dec.dexp b ->
  dec_eq a b <-> Dec.scaled E a = Dec.scaled E b.
Proof.
  intros Ha Hb. unfold dec_eq. rewrite (cmp_common E) by done. apply Z.compare_eq_iff.
Qed.

Lemma dec_lt_irrefl_le (a b : Decimal) : dec_lt a b -> dec_le b a -> False.
Proof.
  unfold dec_lt, dec_le. pose (E := Z.min (Dec.dexp a) (Dec.dexp b)).
  rewrite (leb_common E), (ltb_common E) by lia. lia.
Qed.

Lemma scaled_sub (a r : Decimal) :
  Dec.scaled (Z.min (Dec.dexp a) (Dec.dexp r)) (Dec.sub a r) =
  Dec.scaled (Z.min (Dec.dexp a) (Dec.dexp r)) a -
  Dec.scaled (Z.min (Dec.dexp a) (Dec.dexp r)) r.
Proof.
  unfold Dec.sub. cbv zeta. unfold Dec.scaled at 1. simpl.
  rewrite Z.sub_diag, Z.pow_0_r. lia.
Qed.

Lemma scaled_add (a r : Decimal) :
  Dec.scaled (Z.min (Dec.dexp a) (Dec.dexp r)) (Dec.add a r) =
  Dec.scaled (Z.min (Dec.dexp a) (Dec.dexp r)) a +
  Dec.scaled (Z.min (Dec.dexp a) (Dec.dexp r)) r.
Proof.
  unfold Dec.add. cbv zeta. unfold Dec.scaled at 1. simpl.
  rewrite Z.sub_diag, Z.pow_0_r. lia.
Qed.

Lemma dexp_sub (a r : Decimal) : Dec.dexp (Dec.sub a r) = Z.min (Dec.dexp a) (Dec.dexp r).
Proof. done. Qed.

Lemma dexp_add (a r : Decimal) : Dec.dexp (Dec.add a r) = Z.min (Dec.dexp a) (Dec.dexp r).
Proof. done. Qed.

Lemma dec_sub_lt (a r : Decimal) : 0 < Dec.coef r -> dec_lt (Dec.sub a r) a.
Proof.
  intros Hr. unfold dec_lt.
  apply (ltb_common (Z.min (Dec.dexp a) (Dec.dexp r))); [rewrite dexp_sub; lia | lia|].
  rewrite scaled_sub.
  pose proof (scaled_pos (Z.min (Dec.dexp a) (Dec.dexp r)) r ltac:(lia) Hr). lia.
Qed.

Lemma dec_add_gt (a r : Decimal) : 0 < Dec.coef r -> dec_lt a (Dec.add a r).
Proof.
  intros Hr. unfold dec_lt.
  apply (ltb_common (Z.min (Dec.dexp a) (Dec.dexp r))); [lia | rewrite dexp_add; lia|].
  rewrite scaled_add.
  pose proof (scaled_pos (Z.min (Dec.dexp a) (Dec.dexp r)) r ltac:(lia) Hr). lia.
Qed.

(** the distance put on by [add] or taken off by [sub] is the step itself *)
Lemma dec_add_sub (a r : Decimal) : dec_eq (Dec.sub (Dec.add a r) a) r.
Proof.
  apply (dec_eq_common (Z.min (Dec.dexp a) (Dec.dexp r)));
    [rewrite dexp_sub, dexp_add; lia | lia|].
  pose proof (scaled_sub (Dec.add a r) a) as H. rewrite dexp_add in H.
  replace (Z.min (Z.min (Dec.dexp a) (Dec.dexp r)) (Dec.dexp a))
    with (Z.min (Dec.dexp a) (Dec.dexp r)) in H by lia.
  rewrite H, scaled_add. lia.
Qed.

Lemma dec_sub_sub (a r : Decimal) : dec_eq (Dec.sub a (Dec.sub a r)) r.
Proof.
  apply (dec_eq_common (Z.min (Dec.dexp a) (Dec.dexp r)));
    [rewrite !dexp_sub; lia | lia|].
  pose proof (scaled_sub a (Dec.sub a r)) as H. rewrite dexp_sub in H.
  replace (Z.min (Dec.dexp a) (Z.min (Dec.dexp a) (Dec.dexp r)))
    with (Z.min (Dec.dexp a) (Dec.dexp r)) in H by lia.
  rewrite H, scaled_sub. lia.
Qed.

Lemma dec_mul_eq (k x r : Decimal) : dec_eq x r -> dec_eq (Dec.mul k x) (Dec.mul k r).
Proof.
  intros H. apply (dec_eq_common (Z.min (Dec.dexp x) (Dec.dexp r))) in H; [|lia|lia].
  apply (dec_eq_common (Dec.dexp k + Z.min (Dec.dexp x) (Dec.dexp r))); simpl; [lia|lia|].
  rewrite !scaled_mul by lia. by rewrite H.
Qed.

Lemma dec_eq_sym (a b : Decimal) : dec_eq a b -> dec_eq b a.
Proof.
  intros H. apply (dec_eq_common (Z.min (Dec.dexp a) (Dec.dexp b))) in H; [|lia|lia].
  by apply (dec_eq_common (Z.min (Dec.dexp a) (Dec.dexp b))); [lia|lia|].
Qed.

Lemma dec_eq_trans (a b c : Decimal) : dec_eq a b -> dec_eq b c -> dec_eq a c.
Proof.
  pose (E := Z.min (Dec.dexp a) (Z.min (Dec.dexp b) (Dec.dexp c))).
  intros H1 H2. apply (dec_eq_common E) in H1; [|lia|lia].
  apply (dec_eq_common E) in H2; [|lia|lia].
  apply (dec_eq_common E); [lia|lia|congruence].
Qed.

End Levels.

(** X11: stop and target straddle the entry at the configured ratio.
    With a positive risk step and risk/reward, and as long as the product
    rr * risk_step and the two levels computed from it fit the decimal
    context (28 significant digits), so that no result is rounded, a
    position opened by [_enter] at [price] has, for a long,
    stop < entry < target and, for a short, target < entry < stop; in both
    cases the exact distance from entry to target is risk/reward times the
    exact distance from entry to stop. *)
Theorem entry_levels_straddle (sd : Side) (price : Decimal) (ts : datetime)
    (note : string) (st : BreakoutStrategy) (p : Position) :
  active st = None -> active (_enter sd price ts note st) = Some p ->
  0 < Dec.coef (risk_step st) -> 0 < Dec.coef (rr st) ->
  fits_context (Dec.mul (rr st) (risk_step st)) ->
  fits_context (stop p) -> fits_context (target p) ->
  entry p = price /\ side p = sd /\
  match sd with
  | long =>
      dec_lt (stop p) (entry p) /\ dec_lt (entry p) (target p) /\
      dec_eq (Dec.sub (target p) (entry p))
             (Dec.mul (rr st) (Dec.sub (entry p) (stop p)))
  | short =>
      dec_lt (target p) (entry p) /\ dec_lt (entry p) (stop p) /\
      dec_eq (Dec.sub (entry p) (target p))
             (Dec.mul (rr st) (Dec.sub (stop p) (entry p)))
  end.
Proof.
  intros Ha Hp Hr Hrr _ _ _. unfold _enter in Hp. rewrite Ha in Hp.
  destruct (max_positions st <? 1); [by rewrite Ha in Hp|].
  simpl in Hp. inversion Hp; subst p; clear Hp. simpl.
  assert (0 < Dec.coef (Dec.mul (rr st) (risk_step st))) as Hm
    by (simpl; by apply Z.mul_pos_pos).
  split; [done|]. split; [done|]. destruct sd.
  - split; [by apply dec_sub_lt|]. split; [by apply dec_add_gt|].
    eapply dec_eq_trans; [apply dec_add_sub|].
    apply dec_mul_eq, dec_eq_sym, dec_sub_sub.
  - split; [by apply dec_sub_lt|]. split; [by apply dec_add_gt|].
    eapply dec_eq_trans; [apply dec_sub_sub|].
    apply dec_mul_eq, dec_eq_sym, dec_add_sub.
Qed.

Lemma entry_levels_straddle_witness :
  fits_context (Dec.mul (Dec.mk 2 0) (d3 1)) /\
  fits_context (d3 1059) /\ fits_context (d3 1062) /\
  dec_lt (d3 1059) (d3 1060) /\ dec_lt (d3 1060) (d3 1062) /\
  dec_eq (Dec.sub (d3 1062) (d3 1060)) (Dec.mul (Dec.mk 2 0) (Dec.sub (d3 1060) (d3 1059))).
Proof.
  assert (forall n e, Z.abs n < 10 ^ 28 -> -999999 <= e <= 999972 ->
            fits_context (Dec.mk n e)) as F by (intros n e H1 H2; by split).
  assert (fits_context (Dec.mul (Dec.mk 2 0) (d3 1))) as F1 by (apply F; simpl; lia).
  assert (fits_context (d3 1059)) as F2 by (apply F; simpl; lia).
  assert (fits_context (d3 1062)) as F3 by (apply F; simpl; lia).
  split; [exact F1|]. split; [exact F2|]. split; [exact F3|].
  exact (proj2 (proj2 (entry_levels_straddle long (d3 1060) (minute 1) "basis=OPEN"
    (set_blue (d3 1050) (d3 1040) (BreakoutStrategy_init default_settings (minute 0)))
    position_1060 eq_refl eq_refl eq_refl eq_refl F1 F2 F3))).
Defined.

(** X12: the live exit is the close-based exit on a point sample. For a
    position whose stop lies on the losing side of its target, a candle
    whose high and low are both the live price is managed exactly as that
    price is by [on_live_price], whichever side the tie-break favours. *)
Theorem live_exit_is_point_management (tie : bool) (price : Decimal) (ts : datetime)
    (c : Candle) (st : BreakoutStrategy) (p : Position) :
  active st = Some p ->
  match side p with
  | long => dec_lt (stop p) (target p)
  | short => dec_lt (target p) (stop p)
  end ->
  high c = price -> low c = price -> time c = ts ->
  _manage_position tie c st = on_live_price price ts st.
Proof.
  intros Ha Hord Hh Hl Ht. unfold _manage_position, on_live_price.
  rewrite Ha, Hh, Hl, Ht. unfold Dec.geb.
  destruct (side p).
  - destruct (Dec.leb (target p) price) eqn:E1, (Dec.leb price (stop p)) eqn:E2;
      destruct tie; try done.
    all: exfalso; eapply dec_lt_irrefl_le; [exact Hord|];
      eapply dec_le_trans; [exact E1 | exact E2].
  - destruct (Dec.leb price (target p)) eqn:E1, (Dec.leb (stop p) price) eqn:E2;
      destruct tie; try done.
    all: exfalso; eapply dec_lt_irrefl_le; [exact Hord|];
      eapply dec_le_trans; [exact E2 | exact E1].
Qed.

Lemma live_exit_is_point_management_witness :
  _manage_position true (bar 2 1063 1063 1063 1063) long_at_1060 =
  on_live_price (d3 1063) (minute 2) long_at_1060.
Proof.
  apply (live_exit_is_point_management true (d3 1063) (minute 2)
           (bar 2 1063 1063 1063 1063) long_at_1060 position_1060 eq_refl);
    reflexivity.
Defined.

(** X13: a candle can open a position and stop it out in the same pass.
    [poll_loop] hands each new candle to [on_new_close] twice. When the
    engine is idle and the candle opens above the upper level, the first
    call enters long on the open; if the candle's low is at or below that
    entry's stop, the second call closes the position as a loss at the stop
    (stop priority on): the engine is idle again and the journal has two
    more rows, the entry of the long position and its exit, with outcome
    loss, exit price the stop and closing time the candle's own time. The
    levels are the exact ones, which the decimal context returns as long
    as they fit its 28 digits. *)
Theorem entry_candle_can_stop_out (c : Candle) (st : BreakoutStrategy) (bh bl : Decimal) :
  active st = None -> blue_high st = Some bh -> blue_low st = Some bl ->
  ref_utc st <= time c -> 1 <= max_positions st ->
  Dec.gtb (open c) bh = true ->
  fits_context (Dec.mul (rr st) (risk_step st)) ->
  fits_context (Dec.sub (open c) (risk_step st)) ->
  fits_context (Dec.add (open c) (Dec.mul (rr st) (risk_step st))) ->
  Dec.leb (low c) (Dec.sub (open c) (risk_step st)) = true ->
  active (on_new_close true c (on_new_close true c st)) = None /\
  journal (on_new_close true c (on_new_close true c st)) =
    journal st ++
      [LogEntry (mkPosition long (open c) (Dec.sub (open c) (risk_step st))
                   (Dec.add (open c) (Dec.mul (rr st) (risk_step st)))
                   (trade_capital st) (time c) None None None)
         "entered basis=OPEN";
       LogExit (mkPosition long (open c) (Dec.sub (open c) (risk_step st))
                  (Dec.add (open c) (Dec.mul (rr st) (risk_step st)))
                  (trade_capital st) (time c)
                  (Some (Dec.sub (open c) (risk_step st))) (Some (time c)) (Some loss))
         "exit"].
Proof.
  intros Ha Hh Hl Href Hmax Ho _ _ _ Hlow.
  assert (on_new_close true c st =
          with_active st (Some (entered long (open c) (time c) st))
            (journal st ++ [LogEntry (entered long (open c) (time c) st)
                              "entered basis=OPEN"])) as ->.
  { unfold on_new_close.
    destruct (time c <? ref_utc st) eqn:E; [apply Z.ltb_lt in E; lia|].
    rewrite Hh, Hl, Ha, Ho. simpl.
    destruct (max_positions st <=? 0) eqn:E'; [apply Z.leb_le in E'; lia|].
    by rewrite _enter_idle. }
  unfold on_new_close. simpl.
  destruct (time c <? ref_utc st) eqn:E; [apply Z.ltb_lt in E; lia|].
  rewrite Hh, Hl. unfold _manage_position. simpl. rewrite Hlow.
  unfold _exit. simpl. split; [reflexivity|]. by rewrite <- app_assoc.
Qed.

Lemma entry_candle_can_stop_out_witness :
  active (on_new_close true (bar 1 1060 1061 1059 1061)
            (on_new_close true (bar 1 1060 1061 1059 1061)
               (set_blue (d3 1050) (d3 1040)
                  (BreakoutStrategy_init default_settings (minute 0))))) = None /\
  journal (on_new_close true (bar 1 1060 1061 1059 1061)
            (on_new_close true (bar 1 1060 1061 1059 1061)
               (set_blue (d3 1050) (d3 1040)
                  (BreakoutStrategy_init default_settings (minute 0))))) =
  [LogEntry (mkPosition long (d3 1060) (d3 1059) (d3 1062) (Dec.mk 100 0) (minute 1)
               None None None) "entered basis=OPEN";
   LogExit (mkPosition long (d3 1060) (d3 1059) (d3 1062) (Dec.mk 100 0) (minute 1)
              (Some (d3 1059)) (Some (minute 1)) (Some loss)) "exit"].
Proof.
  assert (forall n e, Z.abs n < 10 ^ 28 -> -999999 <= e <= 999972 ->
            fits_context (Dec.mk n e)) as F by (intros n e H1 H2; by split).
  exact (entry_candle_can_stop_out (bar 1 1060 1061 1059 1061)
    (set_blue (d3 1050) (d3 1040) (BreakoutStrategy_init default_settings (minute 0)))
    (d3 1050) (d3 1040) eq_refl eq_refl eq_refl
    ltac:(vm_compute; congruence) ltac:(vm_compute; congruence) eq_refl
    (F 2 (-3) ltac:(simpl; lia) ltac:(lia))
    (F 1059 (-3) ltac:(simpl; lia) ltac:(lia))
    (F 1062 (-3) ltac:(simpl; lia) ltac:(lia))
    eq_refl).
Defined.

(** ** The reference levels and the reference time *)

Section Blue.

Lemma py_max_spec (xs : list Decimal) (x : Decimal) :
  py_max x xs ∈ x :: xs /\ Forall (fun y => dec_le y (py_max x xs)) (x :: xs).
Proof.
  revert x. induction xs as [|y ys IH]; intros x; unfold py_max; simpl.
  - split; [apply list_elem_of_here|]. constructor; [apply dec_le_refl | constructor].
  - destruct (IH (if Dec.gtb y x then y else x)) as [Hin Hall].
    fold (py_max (if Dec.gtb y x then y else x) ys) in *.
    apply Forall_cons in Hall as [Hm Hall]. unfold Dec.gtb in *.
    destruct (Dec.ltb x y) eqn:E.
    + split; [by apply list_elem_of_further|].
      constructor; [|by constructor].
      eapply dec_le_trans; [|exact Hm]. by apply dec_lt_le.
    + split.
      * apply elem_of_cons in Hin as [->|Hin]; [apply list_elem_of_here|].
        by apply list_elem_of_further, list_elem_of_further.
      * constructor; [done|]. constructor; [|done].
        eapply dec_le_trans; [|exact Hm]. unfold dec_le. by rewrite leb_negb_ltb, E.
Qed.

Lemma py_min_spec (xs : list Decimal) (x : Decimal) :
  py_min x xs ∈ x :: xs /\ Forall (fun y => dec_le (py_min x xs) y) (x :: xs).
Proof.
  revert x. induction xs as [|y ys IH]; intros x; unfold py_min; simpl.
  - split; [apply list_elem_of_here|]. constructor; [apply dec_le_refl | constructor].
  - destruct (IH (if Dec.ltb y x then y else x)) as [Hin Hall].
    fold (py_min (if Dec.ltb y x then y else x) ys) in *.
    apply Forall_cons in Hall as [Hm Hall].
    destruct (Dec.ltb y x) eqn:E.
    + split; [by apply list_elem_of_further|].
      constructor; [|by constructor].
      eapply dec_le_trans; [exact Hm|]. by apply dec_lt_le.
    + split.
      * apply elem_of_cons in Hin as [->|Hin]; [apply list_elem_of_here|].
        by apply list_elem_of_further, list_elem_of_further.
      * constructor; [done|]. constructor; [|done].
        eapply dec_le_trans; [exact Hm|]. unfold dec_le. by rewrite leb_negb_ltb, E.
Qed.

(** reading a field at the slots selected by timestamp is reading it off
    the candles selected by timestamp *)
Lemma mapM_window {B : Type} (f : Candle -> B) (q : datetime -> bool)
    (cs pre : list Candle) :
  mapM (fun i => (f <$> (pre ++ cs)) !! i)
    (List.filter (fun i => match (time <$> (pre ++ cs)) !! i with
                           | Some ts => q ts
                           | None => false
                           end)
       (seq (length pre) (length cs)))
  = Some (f <$> List.filter (fun c => q (time c)) cs).
Proof.
  revert pre. induction cs as [|c cs IH]; intros pre; [done|].
  simpl seq. simpl List.filter.
  rewrite !list_lookup_fmap, list_lookup_middle by done. simpl.
  specialize (IH (pre ++ [c])). rewrite <- app_assoc in IH. simpl in IH.
  rewrite length_app in IH. simpl in IH. rewrite Nat.add_1_r in IH.
  destruct (q (time c)); [|exact IH].
  simpl. rewrite list_lookup_fmap, list_lookup_middle by done. simpl.
  by rewrite IH.
Qed.

Lemma mapM_last {A B : Type} (g : A -> option B) (l : list A) (k : list B) :
  mapM g l = Some k -> last l ≫= g = last k.
Proof.
  intros H. apply mapM_Some_1 in H.
  induction H as [|x y l k Hx Hl IH]; [done|].
  destruct Hl as [|x' y' l k Hx' Hl]; [by simpl|].
  rewrite !last_cons_cons. exact IH.
Qed.

End Blue.

(** X14: the reference levels are the extremes of the five-minute window.
    On a ring whose deques have one length [try_set_blue] always returns.
    It sets the latch only when the ring holds exactly five records with
    timestamps from five minutes to one minute before the reference time,
    the last of them at one minute before; the upper level is then one of
    their highs and not below any of them, the lower level one of their
    lows and not above any of them. Otherwise, and whenever the latch is
    already set, latch and strategy are left as they were. *)
Theorem try_set_blue_levels (ref : datetime) (s : CandleSeries) (blue_set : bool)
    (st : BreakoutStrategy) :
  series_wf s ->
  exists blue_set' st',
    try_set_blue ref s blue_set (Some st) = Some (blue_set', Some st') /\
    ((blue_set' = blue_set /\ st' = st) \/
     (blue_set = false /\ blue_set' = true /\
      let w := List.filter
                 (fun c => (ref - 5 * minute_us <=? time c) && (time c <=? ref - 1 * minute_us))
                 (series_candles s) in
      length w = 5%nat /\ time <$> last w = Some (ref - 1 * minute_us) /\
      exists bh bl,
        st' = set_blue bh bl st /\
        bh ∈ high <$> w /\ Forall (fun c => dec_le (high c) bh) w /\
        bl ∈ low <$> w /\ Forall (fun c => dec_le bl (low c)) w)).
Proof.
  intros Hwf. rewrite (series_repr s Hwf). rewrite series_candles_of.
  set (cs := series_candles s). set (cap := capacity s).
  destruct blue_set; [by eexists _, _; split; [|left]|].
  cbv zeta.
  set (w := List.filter
              (fun c => (ref - 5 * minute_us <=? time c) && (time c <=? ref - 1 * minute_us))
              cs).
  assert (forall B (f : Candle -> B),
            mapM (fun i => (f <$> cs) !! i)
              (window_idxs (ref - 5 * minute_us) (ref - 1 * minute_us) (series_of cap cs))
            = Some (f <$> w)) as Hmap.
  { intros B f. unfold window_idxs. simpl. rewrite length_fmap.
    exact (mapM_window f
             (fun ts => (ref - 5 * minute_us <=? ts) && (ts <=? ref - 1 * minute_us)) cs []). }
  pose proof (Hmap _ time) as Ht. pose proof (Hmap _ high) as Hh.
  pose proof (Hmap _ low) as Hl.
  assert (length (window_idxs (ref - 5 * minute_us) (ref - 1 * minute_us)
                    (series_of cap cs)) = length w) as Hlen.
  { apply mapM_Some_1, Forall2_length in Ht. by rewrite length_fmap in Ht. }
  assert (try_set_blue ref (series_of cap cs) false (Some st) =
          if (length w =? 5)%nat
             && match time <$> last w with
                | Some t => t =? ref - 1 * minute_us
                | None => false
                end
          then match high <$> w, low <$> w with
               | h :: hs', l :: ls' =>
                   Some (true, Some (set_blue (py_max h hs') (py_min l ls') st))
               | _, _ => None
               end
          else Some (false, Some st)) as Hval.
  { unfold try_set_blue. cbv zeta. rewrite Hlen.
    change (times (series_of cap cs)) with (time <$> cs).
    change (highs (series_of cap cs)) with (high <$> cs).
    change (lows (series_of cap cs)) with (low <$> cs).
    pose proof (mapM_last _ _ _ Ht) as Hq. unfold datetime in *.
    rewrite Hq, fmap_last, Hh, Hl. simpl.
    destruct (_ && _); [|done]. by destruct (high <$> w), (low <$> w). }
  rewrite Hval. clear Hval.
  destruct (length w =? 5)%nat eqn:E5; simpl; [|by eexists _, _; split; [|left]].
  apply Nat.eqb_eq in E5.
  destruct (last w) as [c0|] eqn:El; simpl; [|by eexists _, _; split; [|left]].
  destruct (time c0 =? ref - 1 * minute_us) eqn:Ee; [|by eexists _, _; split; [|left]].
  apply Z.eqb_eq in Ee.
  destruct w as [|c1 w'] eqn:Ew; [done|]. simpl.
  eexists _, _. split; [reflexivity|]. right.
  split; [done|]. split; [done|]. split; [done|]. split; [by rewrite Ee|].
  destruct (py_max_spec (high <$> w') (high c1)) as [Hin1 Hall1].
  destruct (py_min_spec (low <$> w') (low c1)) as [Hin2 Hall2].
  eexists _, _. split; [reflexivity|].
  split; [exact Hin1|]. split.
  { apply Forall_forall. intros c Hc. eapply Forall_forall in Hall1; [exact Hall1|].
    by apply (list_elem_of_fmap_2 high) in Hc. }
  split; [exact Hin2|].
  apply Forall_forall. intros c Hc. eapply Forall_forall in Hall2; [exact Hall2|].
  by apply (list_elem_of_fmap_2 low) in Hc.
Qed.

Lemma try_set_blue_levels_witness :
  try_set_blue (minute 6) ring6 false
    (Some (BreakoutStrategy_init default_settings (minute 6)))
  = Some (true, Some (set_blue (d3 1055) (d3 1047)
                        (BreakoutStrategy_init default_settings (minute 6)))).
Proof.
  destruct (try_set_blue_levels (minute 6) ring6 false
              (BreakoutStrategy_init default_settings (minute 6)) ring6_wf)
    as (b & st' & Hr & _).
  rewrite Hr. vm_compute in Hr. inversion Hr. reflexivity.
Defined.

(** X15: the reference time is today's local HH:MM. For an hour in 0..23
    and a minute in 0..59, [local_today_to_utc] returns an instant which,
    shifted by the time-zone offset, falls on the same local day as the
    clock reading and at HH:MM:00 of that day; so it is less than a day
    away from the clock reading. An hour or minute out of range raises. *)
Theorem local_today_to_utc_same_day (now_utc hour_local minute_local tz : Z) :
  (0 <= hour_local < 24 /\ 0 <= minute_local < 60 ->
   exists target,
     local_today_to_utc now_utc hour_local minute_local tz = Some target /\
     (target + tz * hour_us) / day_us = (now_utc + tz * hour_us) / day_us /\
     (target + tz * hour_us) mod day_us = hour_local * hour_us + minute_local * minute_us /\
     - day_us < target - now_utc < day_us) /\
  (~ (0 <= hour_local < 24 /\ 0 <= minute_local < 60) ->
   local_today_to_utc now_utc hour_local minute_local tz = None).
Proof.
  unfold local_today_to_utc. cbv zeta. split.
  - intros [Hh Hm].
    destruct (0 <=? hour_local) eqn:E1; [|apply Z.leb_gt in E1; lia].
    destruct (hour_local <? 24) eqn:E2; [|apply Z.ltb_ge in E2; lia].
    destruct (0 <=? minute_local) eqn:E3; [|apply Z.leb_gt in E3; lia].
    destruct (minute_local <? 60) eqn:E4; [|apply Z.ltb_ge in E4; lia].
    simpl. eexists. split; [reflexivity|].
    set (L := now_utc + tz * hour_us).
    assert (0 < day_us) as Hd by done.
    pose proof (Z.div_mod L day_us ltac:(lia)) as HL.
    pose proof (Z.mod_pos_bound L day_us Hd) as Hb.
    assert (0 <= hour_local * hour_us + minute_local * minute_us < day_us) as Hx
      by (unfold day_us, hour_us, minute_us; lia).
    replace (L - L mod day_us + hour_local * hour_us + minute_local * minute_us
             - tz * hour_us + tz * hour_us)
      with (day_us * (L / day_us) + (hour_local * hour_us + minute_local * minute_us))
      by lia.
    split; [symmetry; eapply Z.div_unique; [left; exact Hx | reflexivity]|].
    split; [symmetry; eapply Z.mod_unique; [left; exact Hx | reflexivity]|].
    unfold L in *. lia.
  - intros Hn.
    destruct (0 <=? hour_local) eqn:E1; [apply Z.leb_le in E1|done].
    destruct (hour_local <? 24) eqn:E2; [apply Z.ltb_lt in E2|done].
    destruct (0 <=? minute_local) eqn:E3; [apply Z.leb_le in E3|done].
    destruct (minute_local <? 60) eqn:E4; [apply Z.ltb_lt in E4|done].
    lia.
Qed.

Lemma local_today_to_utc_same_day_witness :
  local_today_to_utc (minute 0) 7 35 (-6) = Some 1699968900000000 /\
  (1699968900000000 + (-6) * hour_us) mod day_us = 7 * hour_us + 35 * minute_us.
Proof.
  destruct (proj1 (local_today_to_utc_same_day (minute 0) 7 35 (-6)) ltac:(lia))
    as (t & Ht & _ & Hm & _).
  vm_compute in Ht. inversion Ht; subst t. split; [reflexivity | exact Hm].
Defined.

(** ** The candle file, the pair name and the poll loop *)

Section Recorder.

Lemma recorder_guard (now_min : datetime) (c : Candle) :
  (now_min <=? time c) || (trades c <=? 0) || Dec.leb (volume c) (Dec.of_Z 0)
  = negb (closed_valid now_min c).
Proof.
  unfold closed_valid, Dec.gtb. rewrite leb_negb_ltb, !negb_andb.
  by rewrite !Z.leb_antisym.
Qed.

Lemma recorder_append_closed_valid (now_min : datetime) (file : list CsvRow)
    (c : Candle) (l : Label) (tf : string) :
  recorder_append now_min file c l tf =
  if (time c <? now_min) && (0 <? trades c) && Dec.gtb (volume c) (Dec.of_Z 0)
  then file ++ [mkRow c l tf] else file.
Proof.
  unfold recorder_append. rewrite recorder_guard. unfold closed_valid.
  by destruct ((time c <? now_min) && (0 <? trades c) && Dec.gtb (volume c) (Dec.of_Z 0)).
Qed.

Lemma recorder_append_many_rows (now_min : datetime) (tf : string)
    (pairs : list (Candle * Label)) (file : list CsvRow) :
  exists rows,
    foldl (fun f cl =>
             if (time cl.1 <? now_min) && (0 <? trades cl.1)
                && Dec.gtb (volume cl.1) (Dec.of_Z 0)
             then f ++ [mkRow cl.1 cl.2 tf] else f) file pairs = file ++ rows /\
    Forall (fun r => closed_valid now_min (row_candle r) = true) rows /\
    (length rows <= length pairs)%nat.
Proof.
  revert file. induction pairs as [|[c l] pairs IH]; intros file; simpl.
  - exists []. by rewrite app_nil_r.
  - destruct ((time c <? now_min) && (0 <? trades c) && Dec.gtb (volume c) (Dec.of_Z 0))
      eqn:E.
    + destruct (IH (file ++ [mkRow c l tf])) as (rows & -> & Hall & Hlen).
      exists (mkRow c l tf :: rows). rewrite <- app_assoc. simpl.
      split; [done|]. split; [by constructor | lia].
    + destruct (IH file) as (rows & -> & Hall & Hlen). exists rows.
      split; [done|]. split; [done | lia].
Qed.

Lemma filter_all_id {A : Type} (P : A -> Prop) `{!forall x, Decision (P x)} (l : list A) :
  Forall P l -> filter P l = l.
Proof.
  induction 1 as [|x l Hx _ IH]; [done|]. rewrite filter_cons, decide_True by done.
  by rewrite IH.
Qed.

Lemma newest_candle_of (cap : nat) (l : list Candle) :
  newest_candle (series_of cap l) = last l.
Proof.
  unfold newest_candle, series_of. simpl. rewrite !fmap_last.
  destruct (last l) as [c|]; simpl; [by rewrite candle_eta | done].
Qed.

Lemma last_last_n {A : Type} (cap : nat) (l : list A) (x : A) :
  (0 < cap)%nat -> last (last_n cap (l ++ [x])) = Some x.
Proof.
  intros Hcap. unfold last_n. rewrite length_app. simpl.
  rewrite drop_app_le by lia. apply last_snoc.
Qed.

End Recorder.

(** X16: the candle file never receives a provisional record.
    [CandleRecorder.append] and [append_many] write their filter in two
    ways that agree: [append_many] over candles and labels is [append]
    applied pair by pair; every row it adds is closed and valid at the
    recorder's clock, existing rows are kept, and surplus candles or labels
    are ignored. *)
Theorem recorder_writes_closed_only (now_min : datetime) (file : list CsvRow)
    (candles : list Candle) (labels : list Label) (tf : string) :
  recorder_append_many now_min file candles labels tf =
    foldl (fun f cl => recorder_append now_min f cl.1 cl.2 tf) file (zip candles labels) /\
  exists rows,
    recorder_append_many now_min file candles labels tf = file ++ rows /\
    Forall (fun r => closed_valid now_min (row_candle r) = true) rows /\
    (length rows <= Nat.min (length candles) (length labels))%nat.
Proof.
  split.
  - unfold recorder_append_many. generalize (zip candles labels). intros pairs.
    revert file. induction pairs as [|[c l] pairs IH]; intros file; simpl; [done|].
    rewrite (recorder_append_closed_valid now_min file c l tf). apply IH.
  - destruct (recorder_append_many_rows now_min tf (zip candles labels) file)
      as (rows & E & Hall & Hlen).
    exists rows. split; [exact E|]. split; [exact Hall|].
    rewrite length_zip_with in Hlen. exact Hlen.
Qed.

(** X17: the websocket pair name always has its slash. [ws_pair] leaves
    a name that contains "/" as it is and otherwise inserts one before the
    last three characters; the result always contains "/", normalising it
    again changes nothing, and for a name without "/" removing the slash
    gives the name back. *)
Theorem ws_pair_normal (pair : list ascii) :
  "/"%char ∈ ws_pair pair /\
  ws_pair (ws_pair pair) = ws_pair pair /\
  ("/"%char ∉ pair ->
   filter (fun ch => ch <> "/"%char) (ws_pair pair) = pair /\
   length (ws_pair pair) = S (length pair)).
Proof.
  assert ("/"%char ∈ ws_pair pair) as Hin.
  { unfold ws_pair. destruct (bool_decide ("/"%char ∈ pair)) eqn:E.
    - by apply bool_decide_eq_true in E.
    - apply elem_of_app. right. apply list_elem_of_here. }
  split; [exact Hin|]. split.
  - unfold ws_pair at 1. by rewrite bool_decide_eq_true_2.
  - intros Hno. unfold ws_pair. rewrite bool_decide_eq_false_2 by done.
    assert (Forall (fun ch => ch <> "/"%char) pair) as Hall.
    { apply Forall_forall. intros ch Hch ->. done. }
    split.
    + rewrite !filter_app, filter_cons, decide_False by (intros H; by apply H).
      rewrite filter_nil. simpl. rewrite <- filter_app, take_drop.
      by apply filter_all_id.
    + rewrite !length_app, length_take, length_drop. simpl. lia.
Qed.

Lemma ws_pair_normal_witness :
  ws_pair ["X"; "R"; "P"; "U"; "S"; "D"]%char = ["X"; "R"; "P"; "/"; "U"; "S"; "D"]%char /\
  filter (fun ch => ch <> "/"%char) (ws_pair ["X"; "R"; "P"; "U"; "S"; "D"]%char)
    = ["X"; "R"; "P"; "U"; "S"; "D"]%char.
Proof.
  split; [reflexivity|].
  apply (proj2 (proj2 (ws_pair_normal ["X"; "R"; "P"; "U"; "S"; "D"]%char))).
  intros H. repeat (apply elem_of_cons in H as [H|H]; [discriminate H|]).
  by apply elem_of_nil in H.
Defined.

(** ** One pass of the poll loop *)

(** X18: one pass feeds the strategy the newest record only. With the
    single "1m" interval, when a poll accepts one or more records, the last
    of which is newer than the last one written, and the recorder reads the
    clock no earlier than the poll did, the pass adds one row to the candle
    file, that last record labelled LIVE with the running counter on the
    "1m" timeframe, counts one label, remembers the record's timestamp, and
    hands it to [on_new_close] twice; records accepted before it in the
    same poll are stored but neither written nor handed to the strategy. *)
Theorem poll_iteration_feeds_newest (tie : bool) (up : Upstream)
    (now_min rec_now : datetime) (b : Bot) (minutes : Z) (rows : list Candle)
    (s : CandleSeries) (earlier : list Candle) (c : Candle) :
  intervals (bot_feed b) = [("1m"%string, minutes)] ->
  up minutes (watermark (bot_feed b) "1m") = Some rows ->
  store (bot_feed b) !! "1m"%string = Some s ->
  series_wf s -> (0 < capacity s)%nat -> (series_len s <= capacity s)%nat ->
  accepted (series_last_time s) (List.filter (closed_valid now_min) rows) = earlier ++ [c] ->
  match last_written_time b with None => True | Some lw => lw < time c end ->
  now_min <= rec_now ->
  bot_strategy (poll_iteration tie up now_min rec_now b) =
    (fun st => on_new_close tie c (on_new_close tie c st)) <$> bot_strategy b /\
  candle_file (poll_iteration tie up now_min rec_now b) =
    candle_file b ++ [mkRow c (LIVE (live_label_counter b)) "1m"] /\
  last_written_time (poll_iteration tie up now_min rec_now b) = Some (time c) /\
  live_label_counter (poll_iteration tie up now_min rec_now b) = S (live_label_counter b) /\
  exists s', store (bot_feed (poll_iteration tie up now_min rec_now b)) !! "1m"%string = Some s' /\
    series_candles s' = last_n (capacity s) (series_candles s ++ earlier ++ [c]).
Proof.
  intros Hiv Hup Hs Hwf Hcap Hlen Hacc Hlw Hclock.
  destruct (foldl_series_append_facts s (earlier ++ [c]) Hwf Hlen) as (Hc & Hwf' & _ & _).
  set (s' := foldl series_append s (earlier ++ [c])) in *.
  assert (exists wm, poll_once up now_min (bot_feed b) =
            (mkFeed (intervals (bot_feed b)) (<["1m"%string := s']> (store (bot_feed b))) wm,
             true)) as [wm Hp].
  { unfold poll_once. rewrite Hiv. simpl. unfold poll_tf. cbv zeta. simpl.
    rewrite Hup. simpl. rewrite Hs. simpl.
    rewrite accept_loop_appends, Hacc. fold s'. rewrite Hiv.
    destruct (snd _); eauto. }
  assert (series_last_time s' = Some (time c) /\ newest_candle s' = Some c) as [Hlt Hnew].
  { rewrite (series_repr s' Hwf'), Hc. rewrite newest_candle_of.
    unfold series_last_time. rewrite times_series_of, fmap_last.
    rewrite app_assoc, last_last_n by done. done. }
  assert (closed_valid now_min c = true) as Hcv.
  { assert (Forall (fun x => closed_valid now_min x = true)
              (accepted (series_last_time s) (List.filter (closed_valid now_min) rows))) as HF.
    { apply accepted_Forall, Forall_forall. intros x Hx.
      apply list_elem_of_In, List.filter_In in Hx. tauto. }
    rewrite Hacc in HF. apply Forall_app in HF as [_ HF]. by inversion HF. }
  assert (recorder_append rec_now (candle_file b) c (LIVE (live_label_counter b)) "1m"
          = candle_file b ++ [mkRow c (LIVE (live_label_counter b)) "1m"]) as Hrec.
  { rewrite recorder_append_closed_valid. unfold closed_valid in Hcv.
    apply andb_prop in Hcv as [Hcv Hv]. apply andb_prop in Hcv as [Ht Htr].
    apply Z.ltb_lt in Ht. rewrite Htr, Hv, (proj2 (Z.ltb_lt (time c) rec_now)) by lia.
    reflexivity. }
  assert (poll_iteration tie up now_min rec_now b =
          mkBot (mkFeed (intervals (bot_feed b)) (<["1m"%string := s']> (store (bot_feed b))) wm)
            (Some (time c))
            (candle_file b ++ [mkRow c (LIVE (live_label_counter b)) "1m"])
            (S (live_label_counter b))
            ((fun st => on_new_close tie c (on_new_close tie c st)) <$> bot_strategy b)) as ->.
  { unfold poll_iteration. cbv zeta. rewrite Hp. simpl.
    rewrite lookup_insert_eq, Hlt, Hnew, Hrec.
    destruct (last_written_time b) as [lw|]; [|done].
    by rewrite (proj2 (Z.ltb_lt _ _) Hlw). }
  simpl. repeat (split; [done|]). exists s'. split; [apply lookup_insert_eq | exact Hc].
Qed.

Lemma poll_iteration_feeds_newest_witness :
  (journal <$> bot_strategy
     (poll_iteration true fresh_upstream (minute 5) (minute 5)
        (mkBot feed_behind None [] 0
           (Some (set_blue (d3 1050) (d3 1040)
                    (BreakoutStrategy_init default_settings (minute 0)))))))
  = Some [LogEntry (mkPosition long (d3 1052) (d3 1051) (d3 1054) (Dec.mk 100 0) (minute 4)
                      None None None) "entered basis=OPEN"] /\
  candle_file
     (poll_iteration true fresh_upstream (minute 5) (minute 5)
        (mkBot feed_behind None [] 0
           (Some (set_blue (d3 1050) (d3 1040)
                    (BreakoutStrategy_init default_settings (minute 0))))))
  = [mkRow (bar 4 1052 1052 1052 1052) (LIVE 0) "1m"].
Proof.
  pose proof (poll_iteration_feeds_newest true fresh_upstream (minute 5) (minute 5)
    (mkBot feed_behind None [] 0
       (Some (set_blue (d3 1050) (d3 1040)
                (BreakoutStrategy_init default_settings (minute 0)))))
    1 [bar 2 1050 1052 1049 1051; bar 3 1051 1053 1050 1052; bar 4 1052 1052 1052 1052]
    ring_at_2 [bar 3 1051 1053 1050 1052] (bar 4 1052 1052 1052 1052)
    eq_refl eq_refl eq_refl
    ltac:(unfold series_wf; vm_compute; repeat split)
    ltac:(vm_compute; lia) ltac:(vm_compute; lia) eq_refl I
    ltac:(vm_compute; congruence)) as (H1 & H2 & _).
  split; [rewrite H1; reflexivity | exact H2].
Defined.

(** ** The shape of the rings under polling *)

Lemma poll_tf_well_formed up now_min f iv f' :
  store_well_formed (store f) -> poll_tf up now_min f iv = Some f' ->
  store_well_formed (store f').
Proof.
  destruct iv as [tf minutes]. intros Hwf Hp.
  destruct (poll_tf_appends_closed_valid _ _ _ _ _ _ Hp) as (s & app & Hs & -> & _).
  destruct (Hwf tf s Hs) as [Hs1 Hs2].
  destruct (foldl_series_append_facts s app Hs1 Hs2) as (_ & H1 & H2 & H3).
  intros tf' s' Hl. destruct (decide (tf = tf')) as [E|Hne].
  - subst tf'. rewrite lookup_insert_eq in Hl. inversion Hl; subst s'.
    split; [done|]. by rewrite H3.
  - rewrite lookup_insert_ne in Hl by done. by eapply Hwf.
Qed.

Lemma poll_intervals_well_formed up now_min ivs f :
  store_well_formed (store f) ->
  store_well_formed (store (fst (poll_intervals up now_min ivs f))).
Proof.
  revert f. induction ivs as [|iv ivs IH]; intros f Hwf; simpl; [done|].
  destruct (poll_tf up now_min f iv) as [f'|] eqn:E; simpl; [|done].
  apply IH. by eapply poll_tf_well_formed.
Qed.

(** X19: polling keeps the rings in shape. From the store created for
    any buffer size and interval set, after any run of [poll_once] calls,
    whether they end normally or are cut short by a failing fetch, every
    ring has its eight deques at one common length and holds no more
    records than its capacity. *)
Theorem polling_keeps_rings_in_shape (buffer : nat) (ivs : list (string * Z))
    (calls : list (Upstream * datetime)) :
  store_well_formed
    (store (poll_many calls (DataFeed_init ivs (CandleStore_init buffer ivs)))).
Proof.
  assert (store_well_formed (store (DataFeed_init ivs (CandleStore_init buffer ivs)))) as H.
  { simpl. unfold CandleStore_init. intros tf s Hl.
    apply elem_of_list_to_map_2, list_elem_of_fmap_1 in Hl as (iv & E & _).
    inversion E; subst. split; [unfold series_wf; simpl; by repeat split|].
    unfold series_len. simpl. lia. }
  revert H. generalize (DataFeed_init ivs (CandleStore_init buffer ivs)).
  induction calls as [|call calls IH]; intros f Hwf; simpl; [done|].
  apply IH. unfold poll_once. by apply poll_intervals_well_formed.
Qed.
